(** * udp-ws-bridge: the relay of [main.ts], embedded and verified

    The bridge owns one UDP socket and a set of WebSocket channels.  Its
    whole behaviour is a handful of callbacks run by a single-threaded
    event loop: the periodic sweep of [sentMessages], the per-connection
    [udpHandler], and the WebSocket handlers [open], [message], [close].
    Each callback is embedded as a function on an explicit [bridge] state;
    the event loop is a list of events folded over that state.

    What the JavaScript runtime provides (JSON.parse, Buffer.from, the
    datagram socket, the WebSocket channel) is modelled at the interface
    the callbacks use; the parts of it that the bridge does not fix are
    inputs of the model: the outcome of JSON.parse and of the network send
    come with the event, and the corner cases of Buffer.from are a
    parameter of the development.  The process that hosts the callbacks,
    which the runtime ends on an unhandled rejection, is a layer on top of
    them. *)

From Stdlib Require Import ZArith QArith Ascii.
From Stdlib.Strings Require Byte.
From stdpp Require Import base numbers list strings pretty gmap fin_maps.

Set Warnings "-register-all".

Abbreviation byte := Byte.byte.

(** ** Constants of [main.ts] *)

Definition WS_PORT : Z := 8081.
Definition UDP_PORT : Z := 6454.
Definition NO_ECHO_TIMEOUT : Z := 100.
Definition SWEEP_INTERVAL : Z := 50.

(** ** JavaScript values *)

Module JS.

(** A JavaScript number is an IEEE double: a (dyadic) rational, an
    infinity, or NaN.  The bridge only ever converts numbers to bytes and
    passes them on, so the rational value is all that matters. *)
Inductive number :=
| Finite (q : Q)
| PosInfinity
| NegInfinity
| NaN.

(** The result of [JSON.parse].  A string is held as its UTF-8 encoding;
    an object as the list of its own properties, looked up by first
    match. *)
Inductive json :=
| JNull
| JBool (b : bool)
| JNum (n : number)
| JStr (s : string)
| JArr (elements : list json)
| JObj (properties : list (string * json)).

(** A value read from a parsed message: [None] is [undefined]. *)
Abbreviation value := (option json).

Inductive error :=
| SyntaxError   (* JSON.parse *)
| TypeError     (* property of null, Buffer.from of a non-buffer *)
| SystemError.  (* raised synchronously by udpSocket.send *)

Definition of_Z (z : Z) : json := JNum (Finite (inject_Z z)).

Fixpoint own_property (key : string) (props : list (string * json)) : value :=
  match props with
  | [] => None
  | (k, v) :: props' =>
      if decide (k = key) then Some v else own_property key props'
  end.

(** [v.key] for one of the keys the bridge reads ([type], [data], [port],
    [address]): reading a property of [null] throws, an object answers
    with its own property, every other value with [undefined]. *)
Definition Get (v : json) (key : string) : error + value :=
  match v with
  | JNull => inl TypeError
  | JObj props => inr (own_property key props)
  | _ => inr None
  end.

(** [v === s] for a string literal [s]. *)
Definition strict_equals (v : value) (s : string) : bool :=
  match v with
  | Some (JStr s') => bool_decide (s' = s)
  | _ => false
  end.

(** *** Buffers *)

(** Storing an integer in a Uint8Array keeps it modulo 2^8. *)
Definition uint8 (z : Z) : byte :=
  default Byte.x00 (Byte.of_N (Z.to_N (z `mod` 256))).

Definition truncate (q : Q) : Z := Qnum q `quot` Z.pos (Qden q).

(** ToUint8: NaN and the infinities become 0, a finite number is
    truncated toward zero and reduced modulo 256. *)
Definition ToUint8 (n : number) : byte :=
  match n with
  | Finite q => uint8 (truncate q)
  | PosInfinity | NegInfinity | NaN => uint8 0
  end.

(** ToNumber on the JSON values for which it needs neither string
    parsing nor ToPrimitive. *)
Definition ToNumber_primitive (v : json) : option number :=
  match v with
  | JNum n => Some n
  | JNull => Some (Finite 0)
  | JBool b => Some (Finite (if b then 1 else 0))
  | JStr _ | JArr _ | JObj _ => None
  end.

Definition bytes_of_string (s : string) : list byte :=
  String.list_byte_of_string s.

Section Buffer.

(** [Buffer.from] on an array that holds a string, an array or an
    object, and on an object (array-likes, [{type:"Buffer",data}]):
    these go through StringToNumber and ToPrimitive, which the bridge
    leaves to the runtime.  The development is parametric in them. *)
Variable exotic : json → error + list byte.

(** [Buffer.from(v)]: [undefined], [null], booleans and numbers are
    rejected with a TypeError, a string gives its UTF-8 bytes, an array
    gives one byte per element. *)
Definition Buffer_from (v : value) : error + list byte :=
  match v with
  | None | Some JNull | Some (JBool _) | Some (JNum _) => inl TypeError
  | Some (JStr s) => inr (bytes_of_string s)
  | Some (JArr elements) =>
      match mapM ToNumber_primitive elements with
      | Some ns => inr (ToUint8 <$> ns)
      | None => exotic (JArr elements)
      end
  | Some (JObj props) => exotic (JObj props)
  end.

End Buffer.

(** *** JSON.stringify, on the two shapes the bridge serialises *)

Definition dquote : ascii := "034"%char.
Definition backslash : ascii := "092"%char.

Definition quoted (s : string) : string :=
  String dquote (s +:+ String dquote "").

(** [Array.prototype.join]. *)
Fixpoint join (sep : string) (l : list string) : string :=
  match l with
  | [] => ""
  | x :: l' =>
      match l' with
      | [] => x
      | _ :: _ => x +:+ sep +:+ join sep l'
      end
  end.

(** [[...buf]] turns a buffer into an array of numbers in 0..255, which
    JSON.stringify prints in decimal. *)
Definition stringify_bytes (buf : list byte) : string :=
  "[" +:+ join "," ((λ b, pretty (Byte.to_N b)) <$> buf) +:+ "]".

Definition hex_digit (n : N) : ascii :=
  match n with
  | 0 => "0" | 1 => "1" | 2 => "2" | 3 => "3" | 4 => "4" | 5 => "5"
  | 6 => "6" | 7 => "7" | 8 => "8" | 9 => "9" | 10 => "a" | 11 => "b"
  | 12 => "c" | 13 => "d" | 14 => "e" | _ => "f"
  end%char%N.

(** QuoteJSONString, one code unit at a time. *)
Definition escape (c : ascii) : string :=
  if decide (c = dquote) then String backslash (String dquote "")
  else if decide (c = backslash) then String backslash (String backslash "")
  else
    match N_of_ascii c with
    | 8 => String backslash "b"
    | 9 => String backslash "t"
    | 10 => String backslash "n"
    | 12 => String backslash "f"
    | 13 => String backslash "r"
    | n =>
        if (n <? 32)%N
        then String backslash
               ("u00" +:+ String (hex_digit (n `div` 16))
                            (String (hex_digit (n `mod` 16)) ""))
        else String c ""
    end%N.

Fixpoint escaped (s : string) : string :=
  match s with
  | EmptyString => ""
  | String c s' => escape c +:+ escaped s'
  end.

Definition stringify_string (s : string) : string :=
  String dquote (escaped s +:+ String dquote "").

(** [JSON.stringify({ data: [...buf] })] *)
Definition stringify_data (buf : list byte) : string :=
  "{" +:+ quoted "data" +:+ ":" +:+ stringify_bytes buf +:+ "}".

(** [JSON.stringify({ type: "udp-message", address, port, data: [...msg] })] *)
Definition stringify_udp_message
    (address : string) (port : N) (msg : list byte) : string :=
  "{" +:+ quoted "type" +:+ ":" +:+ quoted "udp-message" +:+ ","
      +:+ quoted "address" +:+ ":" +:+ stringify_string address +:+ ","
      +:+ quoted "port" +:+ ":" +:+ pretty port +:+ ","
      +:+ quoted "data" +:+ ":" +:+ stringify_bytes msg +:+ "}".

End JS.

Import JS.

(** ** The state of the relay *)

(** [udpReady]: settled by the first of the socket's [listening] and
    [error] events. *)
Inductive promise :=
| Pending
| Fulfilled
| Rejected.

(** [ws.readyState] *)
Inductive ReadyState :=
| CONNECTING
| OPEN
| CLOSING
| CLOSED.

#[global] Instance ReadyState_eq_dec : EqDecision ReadyState.
Proof. solve_decision. Defined.

(** [dgram.RemoteInfo]: where an inbound datagram came from. *)
Record RemoteInfo := {
  address : string;
  port : N
}.

(** What [udpSocket.send(buf, port, address, cb)] put on the network: the
    buffer, and the [port] and [address] of the client's message exactly as
    they were handed over. *)
Record datagram := {
  payload : list byte;
  dest_port : value;
  dest_address : value
}.

(** Lines written with [console.log] and [console.error]. *)
Inductive log_entry :=
| LogListening
| LogSocketError
| LogConnected
| LogDisconnected
| LogSendError
| LogInvalidMessage (e : error).

(** The module-level state of [main.ts] together with what it has done to
    the outside world.  A WebSocket channel is named by a number, given out
    in the order the connections open; the [udpHandler] closure of a
    channel is named by the channel it captures. *)
Record bridge := {
  udpReady : promise;
  (** [sentMessages]: key -> timestamp of registration *)
  sentMessages : gmap string Z;
  (** the [udpHandler]s listening for [message] on [udpSocket], oldest first *)
  listeners : list nat;
  (** [ws.readyState] of every channel opened so far *)
  readyState : gmap nat ReadyState;
  (** datagrams sent, oldest first *)
  egress : list datagram;
  (** [ws.send(text)] calls, oldest first *)
  frames : list (nat * string);
  console : list log_entry;
  next_ws : nat
}.

Definition initial : bridge := {|
  udpReady := Pending;
  sentMessages := ∅;
  listeners := [];
  readyState := ∅;
  egress := [];
  frames := [];
  console := [];
  next_ws := 0
|}.

Definition set_udpReady (p : promise) (st : bridge) : bridge :=
  {| udpReady := p; sentMessages := sentMessages st;
     listeners := listeners st; readyState := readyState st;
     egress := egress st; frames := frames st; console := console st;
     next_ws := next_ws st |}.

Definition set_sentMessages (m : gmap string Z) (st : bridge) : bridge :=
  {| udpReady := udpReady st; sentMessages := m;
     listeners := listeners st; readyState := readyState st;
     egress := egress st; frames := frames st; console := console st;
     next_ws := next_ws st |}.

Definition set_listeners (l : list nat) (st : bridge) : bridge :=
  {| udpReady := udpReady st; sentMessages := sentMessages st;
     listeners := l; readyState := readyState st;
     egress := egress st; frames := frames st; console := console st;
     next_ws := next_ws st |}.

Definition set_readyState (ws : nat) (rs : ReadyState) (st : bridge) : bridge :=
  {| udpReady := udpReady st; sentMessages := sentMessages st;
     listeners := listeners st; readyState := <[ws := rs]> (readyState st);
     egress := egress st; frames := frames st; console := console st;
     next_ws := next_ws st |}.

Definition transmit (d : datagram) (st : bridge) : bridge :=
  {| udpReady := udpReady st; sentMessages := sentMessages st;
     listeners := listeners st; readyState := readyState st;
     egress := egress st ++ [d]; frames := frames st; console := console st;
     next_ws := next_ws st |}.

(** [ws.send(text)] *)
Definition ws_send (ws : nat) (text : string) (st : bridge) : bridge :=
  {| udpReady := udpReady st; sentMessages := sentMessages st;
     listeners := listeners st; readyState := readyState st;
     egress := egress st; frames := frames st ++ [(ws, text)];
     console := console st; next_ws := next_ws st |}.

Definition log (e : log_entry) (st : bridge) : bridge :=
  {| udpReady := udpReady st; sentMessages := sentMessages st;
     listeners := listeners st; readyState := readyState st;
     egress := egress st; frames := frames st; console := console st ++ [e];
     next_ws := next_ws st |}.

Definition fresh_ws (st : bridge) : bridge :=
  {| udpReady := udpReady st; sentMessages := sentMessages st;
     listeners := listeners st; readyState := readyState st;
     egress := egress st; frames := frames st; console := console st;
     next_ws := S (next_ws st) |}.

(** ** The echo filter *)

(** [sentMessages.has(key)] *)
Definition has (m : gmap string Z) (key : string) : bool :=
  bool_decide (is_Some (m !! key)).

(** The body of the [setInterval] callback, with [now = Date.now()]: every
    entry of [sentMessages] is visited and deleted from the map when
    [now - timestamp > NO_ECHO_TIMEOUT]. *)
Definition sweep_entries (now : Z) (m : gmap string Z) : gmap string Z :=
  map_fold
    (λ key timestamp acc,
       if decide (now - timestamp > NO_ECHO_TIMEOUT)%Z
       then delete key acc else acc)
    m m.

Definition sweep (now : Z) (st : bridge) : bridge :=
  set_sentMessages (sweep_entries now (sentMessages st)) st.

(** [sentMessages.set(key, timestamp)] *)
Definition sentMessages_set (key : string) (timestamp : Z) (st : bridge)
    : bridge :=
  set_sentMessages (<[key := timestamp]> (sentMessages st)) st.

(** ** UDP to browser *)

(** The [udpHandler] closure created in [open(ws)]. *)
Definition udpHandler (ws : nat) (msg : list byte) (rinfo : RemoteInfo)
    (st : bridge) : bridge :=
  let msgKey := stringify_data msg in
  if has (sentMessages st) msgKey then st
  else
    match readyState st !! ws with
    | Some OPEN =>
        ws_send ws (stringify_udp_message (address rinfo) (port rinfo) msg) st
    | _ => st
    end.

(** [udpSocket.emit("message", msg, rinfo)]: the listeners run one after
    the other in the order they were added.  The listener installed at
    module level does nothing and is left out. *)
Definition emit_message (msg : list byte) (rinfo : RemoteInfo)
    (st : bridge) : bridge :=
  foldl (λ s ws, udpHandler ws msg rinfo s) st (listeners st).

(** [udpSocket.on("message", udpHandler)] *)
Definition on (ws : nat) (l : list nat) : list nat := l ++ [ws].

Fixpoint remove_first (ws : nat) (l : list nat) : list nat :=
  match l with
  | [] => []
  | x :: l' => if decide (x = ws) then l' else x :: remove_first ws l'
  end.

(** [udpSocket.off("message", udpHandler)] removes the most recently added
    instance of the listener, if there is one. *)
Definition off (ws : nat) (l : list nat) : list nat :=
  reverse (remove_first ws (reverse l)).

(** [websocket.open(ws)] for a new channel. *)
Definition open (st : bridge) : bridge :=
  let ws := next_ws st in
  fresh_ws
    (set_listeners (on ws (listeners st))
       (log LogConnected (set_readyState ws OPEN st))).

(** [websocket.close(ws)]; [ws.data.udpHandler] is the handler stored by
    [open]. *)
Definition close (ws : nat) (st : bridge) : bridge :=
  set_listeners (off ws (listeners st)) (log LogDisconnected st).

(** ** Browser to UDP *)

(** What the network does with one [udpSocket.send]. *)
Inductive send_outcome :=
| SendThrows   (* the call raises, e.g. on a port the socket rejects *)
| SendFails    (* the callback receives an error *)
| SendOk.      (* the datagram leaves *)

(** Handlers run on the state and may throw; what they did before
    throwing stays done. *)
Definition handler (A : Type) : Type := bridge → bridge * (error + A).

#[local] Instance handler_ret : MRet handler := λ A a st, (st, inr a).

#[local] Instance handler_bind : MBind handler := λ A B f m st,
  match m st with
  | (st', inr a) => f a st'
  | (st', inl e) => (st', inl e)
  end.

Definition lift {A} (r : error + A) : handler A := λ st, (st, r).

Definition effect (f : bridge → bridge) : handler unit :=
  λ st, (f st, inr tt).

(** [try { body } catch (err) { recover(err) }] *)
Definition try_catch (body : handler unit) (recover : error → bridge → bridge)
    (st : bridge) : bridge :=
  match body st with
  | (st', inr _) => st'
  | (st', inl e) => recover e st'
  end.

(** The [catch] clause of [websocket.message]:
    [console.error("[Bridge] Invalid WS message:", err)]. *)
Definition recover (err : error) : bridge → bridge :=
  log (LogInvalidMessage err).

(** [JSON.parse(raw.toString())], given what the parser made of the text:
    [None] when it is not JSON. *)
Definition JSON_parse (parsed : option json) : error + json :=
  from_option inr (inl SyntaxError) parsed.

(** [udpSocket.send(buf, port, address, (err) => { if (err) console.error(...) })].
    The socket either raises at once, or takes the buffer and reports the
    result to the callback; the line the callback writes on an error is
    put in the log at the time of the call. *)
Definition udpSocket_send (buf : list byte) (port address : value)
    (net : send_outcome) : handler unit :=
  match net with
  | SendThrows => lift (inl SystemError)
  | SendFails => effect (log LogSendError)
  | SendOk =>
      effect (transmit {| payload := buf; dest_port := port;
                          dest_address := address |})
  end.

Section Relay.

(** What the runtime's [Buffer.from] makes of an exotic argument, see
    [JS.Buffer_from]. *)
Variable exotic : json → error + list byte.

(** The [try] block of [websocket.message], with [now = Date.now()]. *)
Definition message_body (now : Z) (parsed : option json)
    (net : send_outcome) : handler unit :=
  msg ← lift (JSON_parse parsed);
  type ← lift (Get msg "type");
  (if strict_equals type "udp-send" then
     data ← lift (Get msg "data");
     buf ← lift (Buffer_from exotic data);
     port ← lift (Get msg "port");
     address ← lift (Get msg "address");
     udpSocket_send buf port address net
   else mret tt);;
  (if strict_equals type "udp-send-no-echo" then
     data ← lift (Get msg "data");
     buf ← lift (Buffer_from exotic data);
     let msgKey := stringify_data buf in
     effect (sentMessages_set msgKey now);;
     port ← lift (Get msg "port");
     address ← lift (Get msg "address");
     udpSocket_send buf port address net
   else mret tt).

(** [websocket.message(ws, raw)], from the point where [await udpReady]
    lets it continue: the event stands for the handler resuming.  It
    resumes once the promise is fulfilled, and then runs to its end
    without another event in between.  On a rejected promise the [await]
    rethrows outside the [try] and the handler ends there; on a pending
    one it has not resumed yet. *)
Definition message (ws : nat) (now : Z) (parsed : option json)
    (net : send_outcome) (st : bridge) : bridge :=
  match udpReady st with
  | Fulfilled => try_catch (message_body now parsed net) recover st
  | Pending | Rejected => st
  end.

(** ** The event loop *)

Inductive event :=
| Listening                                   (* udpSocket "listening" *)
| SocketError                                 (* udpSocket "error" *)
| Sweep (now : Z)                             (* the 50 ms timer *)
| Datagram (msg : list byte) (rinfo : RemoteInfo)   (* udpSocket "message" *)
| Open                                        (* a browser connects *)
| Message (ws : nat) (now : Z) (parsed : option json) (net : send_outcome)
| Close (ws : nat)                            (* a browser disconnects *)
| ReadyStateChange (ws : nat) (rs : ReadyState).  (* the channel's state moves *)

(** The two [once] listeners that settle [udpReady]: each logs, and
    resolves or rejects the promise; a settled promise stays as it is.
    ([setBroadcast(true)] changes nothing that the relay reads and is not
    tracked.)  A [once] listener sees the first event of its kind; a run
    of the model may repeat the event, which then only logs again.  What
    becomes of the process when the promise is rejected is not the
    listener's doing and is told by [process_step] below. *)
Definition listening (st : bridge) : bridge :=
  let st' := log LogListening st in
  match udpReady st with
  | Pending => set_udpReady Fulfilled st'
  | Fulfilled | Rejected => st'
  end.

Definition socket_error (st : bridge) : bridge :=
  let st' := log LogSocketError st in
  match udpReady st with
  | Pending => set_udpReady Rejected st'
  | Fulfilled | Rejected => st'
  end.

Definition step (st : bridge) (e : event) : bridge :=
  match e with
  | Listening => listening st
  | SocketError => socket_error st
  | Sweep now => sweep now st
  | Datagram msg rinfo => emit_message msg rinfo st
  | Open => open st
  | Message ws now parsed net => message ws now parsed net st
  | Close ws => close ws st
  | ReadyStateChange ws rs =>
      if decide (is_Some (readyState st !! ws)) then set_readyState ws rs st
      else st
  end.

Definition run (st : bridge) (evs : list event) : bridge := foldl step st evs.

End Relay.

(** ** The process around the relay *)



Section Process.

Variable exotic : json → error + list byte.

(** When [udpReady] is rejected under suspended [message] calls, each of
    them rethrows at its [await], outside the [try], and the promise of
    the async handler is rejected in its turn.  Whether the runtime ends
    the process on that as well is its own business: the development is
    parametric in it. *)
Variable handler_rejection_is_fatal : bool.




End Process.

(** ** Notions used to state the properties *)

(** A runtime that rejects every exotic argument of [Buffer.from]; it
    serves to run the model on concrete messages, none of which reaches
    it. *)
Definition no_exotic : json → error + list byte := λ _, inl TypeError.

(** A channel is connected when its [udpHandler] is subscribed and its
    [readyState] is [OPEN]. *)
Definition connected (st : bridge) (ws : nat) : Prop :=
  ws ∈ listeners st ∧ readyState st !! ws = Some OPEN.

(** The frames written between two states, and those among them written
    to one channel. *)
Definition new_frames (before after : bridge) : list (nat * string) :=
  drop (length (frames before)) (frames after).

Definition delivered_to (ws : nat) (fs : list (nat * string)) : list string :=
  snd <$> filter (λ f, f.1 = ws) fs.

(** The subscribed channels that are open, in subscription order. *)
Definition open_listeners (st : bridge) : list nat :=
  filter (λ ws, readyState st !! ws = Some OPEN) (listeners st).

(** The [udp-message] frame for a datagram. *)
Definition udp_message (msg : list byte) (rinfo : RemoteInfo) : string :=
  stringify_udp_message (address rinfo) (port rinfo) msg.

Definition is_digit (c : ascii) : bool :=
  match c with
  | "0" | "1" | "2" | "3" | "4" | "5" | "6" | "7" | "8" | "9" => true
  | _ => false
  end%char.

Fixpoint all_digits (s : string) : Prop :=
  match s with
  | EmptyString => True
  | String c s' => is_digit c = true ∧ all_digits s'
  end.

(** A string that begins with something other than a digit. *)
Definition stops (s : string) : Prop :=
  match s with
  | EmptyString => False
  | String c _ => is_digit c = false
  end.

(** [join "," l +:+ k], written so that [k] follows each element. *)
Fixpoint joined_then (l : list string) (k : string) : string :=
  match l with
  | [] => k
  | x :: l' => "," +:+ x +:+ joined_then l' k
  end.



(** [st] after a list of further [ws.send] calls. *)
Definition push_frames (fs : list (nat * string)) (st : bridge) : bridge :=
  {| udpReady := udpReady st; sentMessages := sentMessages st;
     listeners := listeners st; readyState := readyState st;
     egress := egress st; frames := frames st ++ fs;
     console := console st; next_ws := next_ws st |}.

(** An entry is expired for a sweep that runs at [now]. *)
Definition expired (now timestamp : Z) : Prop :=
  (now - timestamp > NO_ECHO_TIMEOUT)%Z.

(** The relay keeps its subscriptions apart: every handler is subscribed
    once, and only for a channel that has been opened. *)
Definition well_formed (st : bridge) : Prop :=
  NoDup (listeners st) ∧ ∀ ws, ws ∈ listeners st → ws < next_ws st.

(** The readings of [Date.now()] made by an event lie in [lo..hi]. *)
Definition clock_within (lo hi : Z) (e : event) : Prop :=
  match e with
  | Sweep now | Message _ now _ _ => (lo ≤ now ≤ hi)%Z
  | _ => True
  end.

(** [msg.key] where it cannot throw. *)
Definition prop (msg : json) (key : string) : value :=
  match Get msg key with
  | inr v => v
  | inl _ => None
  end.

Section Requests.

Variable exotic : json → error + list byte.

(** The payload that a client message asks to send, if it is a request of
    the given type whose [data] makes a buffer. *)
Definition request (type : string) (parsed : option json) : option (list byte) :=
  match parsed with
  | Some msg =>
      match Get msg "type", Get msg "data" with
      | inr t, inr data =>
          if strict_equals t type then
            match Buffer_from exotic data with
            | inr buf => Some buf
            | inl _ => None
            end
          else None
      | _, _ => None
      end
  | None => None
  end.

(** The event does not register the payload [P] in [sentMessages]. *)
Definition quiet (P : list byte) (e : event) : Prop :=
  match e with
  | Message _ _ parsed _ => request "udp-send-no-echo" parsed ≠ Some P
  | _ => True
  end.

End Requests.

(** ** Scenarios *)

Definition loopback : RemoteInfo := {| address := "127.0.0.1"; port := 6454 |}.

(** [{ <discriminator>: <type>, address: "127.0.0.1", port: 6454, data }] *)
Definition client_message (discriminator type : string) (data : list Z)
    : json :=
  JObj [(discriminator, JStr type); ("address", JStr "127.0.0.1");
        ("port", of_Z 6454); ("data", JArr (of_Z <$> data))].

Definition bytes (zs : list Z) : list byte := uint8 <$> zs.

(** The relay with its socket bound and one, or two, browsers connected. *)
Definition one_client : bridge := run no_exotic initial [Listening; Open].

Definition two_clients : bridge :=
  run no_exotic initial [Listening; Open; Open].

(** ** mDNS hostname resolution *)

Module MDNS.

Definition hostname : string := "udp-ws-bridge.local".

(** One address of one network interface, as [os.networkInterfaces()]
    lists it. *)
Record NetworkInterfaceInfo := {
  address : string;
  family : string;
  internal : bool
}.

(** [getLocalIPs()], given [Object.values(os.networkInterfaces())]; the
    entry of an interface may be [undefined].  The two loops push onto
    [ips]. *)
Definition getLocalIPs (interfaces : list (option (list NetworkInterfaceInfo)))
    : list string :=
  foldl
    (λ ips iface,
       match iface with
       | None => ips
       | Some addrs =>
           foldl
             (λ ips addr,
                if bool_decide (family addr = "IPv4") && negb (internal addr)
                then ips ++ [address addr] else ips)
             ips addrs
       end)
    [] interfaces.

Module Question.
Record t := {
  name : string;
  type : string
}.
End Question.

Module Answer.
Record t := {
  name : string;
  type : string;
  ttl : Z;
  data : string
}.
End Answer.

Definition answer_for (ip : string) : Answer.t :=
  {| Answer.name := hostname; Answer.type := "A"; Answer.ttl := 120;
     Answer.data := ip |}.

(** The [query] listener, given the questions of the query and the
    interfaces the system reports while it runs.  It works on
    [mdnsRegistered] and ends with [mdnsServer.respond(answers)] or with
    nothing: the result is the new flag and the answers sent, if any. *)
Definition query (interfaces : list (option (list NetworkInterfaceInfo)))
    (questions : list Question.t) (mdnsRegistered : bool)
    : bool * option (list Answer.t) :=
  let '(answers, registered) :=
    foldl
      (λ '(answers, registered) question,
         if bool_decide (Question.name question = hostname)
            && bool_decide (Question.type question = "A")
         then
           foldl
             (λ '(answers, _) ip, (answers ++ [answer_for ip], true))
             (answers, registered) (getLocalIPs interfaces)
         else (answers, registered))
      ([], mdnsRegistered) questions in
  (registered,
   if bool_decide (0 < length answers) then Some answers else None).

End MDNS.

(** ** The client library ([client.ts]) *)

Module Client.

Definition maxReconnectAttempts : nat := 5.
Definition reconnectDelay : Z := 1000.

(** [SendOptions]: [data] is an array of numbers or a Buffer. *)
Record SendOptions := {
  address : option string;
  port : option number;
  data : list number + list byte
}.

(** A [WSClient], and what it has done to the outside world.  A WebSocket
    is named by a number, given out in the order [connect] creates them;
    a message handler is named by a number of the caller's choice. *)
Record WSClient := {
  (** [this.ws]: the current WebSocket, or [null] *)
  ws : option nat;
  messageHandlers : list nat;
  reconnectAttempts : nat;
  (** [readyState] of every WebSocket created so far *)
  sockets : gmap nat ReadyState;
  next_socket : nat;
  (** the delays given to [setTimeout], oldest first *)
  timers : list Z;
  (** [ws.send(JSON.stringify(msg))]: the WebSocket and [msg], oldest first *)
  sent : list (nat * json);
  (** [handler(msg)] calls, oldest first *)
  calls : list (nat * json)
}.

(** [new WSClient(url)] *)
Definition new : WSClient := {|
  ws := None;
  messageHandlers := [];
  reconnectAttempts := 0;
  sockets := ∅;
  next_socket := 0;
  timers := [];
  sent := [];
  calls := []
|}.

Definition set_ws (w : option nat) (c : WSClient) : WSClient :=
  {| ws := w; messageHandlers := messageHandlers c;
     reconnectAttempts := reconnectAttempts c; sockets := sockets c;
     next_socket := next_socket c; timers := timers c; sent := sent c;
     calls := calls c |}.

Definition set_messageHandlers (hs : list nat) (c : WSClient) : WSClient :=
  {| ws := ws c; messageHandlers := hs;
     reconnectAttempts := reconnectAttempts c; sockets := sockets c;
     next_socket := next_socket c; timers := timers c; sent := sent c;
     calls := calls c |}.

Definition set_reconnectAttempts (n : nat) (c : WSClient) : WSClient :=
  {| ws := ws c; messageHandlers := messageHandlers c;
     reconnectAttempts := n; sockets := sockets c;
     next_socket := next_socket c; timers := timers c; sent := sent c;
     calls := calls c |}.

Definition set_readyState (id : nat) (rs : ReadyState) (c : WSClient)
    : WSClient :=
  {| ws := ws c; messageHandlers := messageHandlers c;
     reconnectAttempts := reconnectAttempts c;
     sockets := <[id := rs]> (sockets c);
     next_socket := next_socket c; timers := timers c; sent := sent c;
     calls := calls c |}.

(** [new WebSocket(url)] *)
Definition new_WebSocket (c : WSClient) : WSClient :=
  {| ws := ws c; messageHandlers := messageHandlers c;
     reconnectAttempts := reconnectAttempts c;
     sockets := <[next_socket c := CONNECTING]> (sockets c);
     next_socket := S (next_socket c); timers := timers c; sent := sent c;
     calls := calls c |}.

(** [setTimeout(..., delay)] *)
Definition setTimeout (delay : Z) (c : WSClient) : WSClient :=
  {| ws := ws c; messageHandlers := messageHandlers c;
     reconnectAttempts := reconnectAttempts c; sockets := sockets c;
     next_socket := next_socket c; timers := timers c ++ [delay];
     sent := sent c; calls := calls c |}.

(** [ws.send(JSON.stringify(msg))] *)
Definition ws_send (id : nat) (msg : json) (c : WSClient) : WSClient :=
  {| ws := ws c; messageHandlers := messageHandlers c;
     reconnectAttempts := reconnectAttempts c; sockets := sockets c;
     next_socket := next_socket c; timers := timers c;
     sent := sent c ++ [(id, msg)]; calls := calls c |}.

(** [this.messageHandlers.forEach((handler) => handler(msg))] *)
Definition call_handlers (msg : json) (c : WSClient) : WSClient :=
  {| ws := ws c; messageHandlers := messageHandlers c;
     reconnectAttempts := reconnectAttempts c; sockets := sockets c;
     next_socket := next_socket c; timers := timers c; sent := sent c;
     calls := calls c ++ ((λ h, (h, msg)) <$> messageHandlers c) |}.

(** [connect()]: a new WebSocket becomes [this.ws] and gets the four
    listeners below.  (The promise it returns is not tracked.) *)
Definition connect (c : WSClient) : WSClient :=
  set_ws (Some (next_socket c)) (new_WebSocket c).

(** [ws.onopen] *)
Definition onopen (c : WSClient) : WSClient := set_reconnectAttempts 0 c.

(** [ws.onmessage], given what [JSON.parse(event.data)] made of the text. *)
Definition onmessage (parsed : option json) (c : WSClient) : WSClient :=
  match parsed with
  | None => c
  | Some msg =>
      match Get msg "type" with
      | inl _ => c
      | inr type =>
          if strict_equals type "udp-message" then call_handlers msg c else c
      end
  end.

(** [attemptReconnect()] *)
Definition attemptReconnect (c : WSClient) : WSClient :=
  if decide (maxReconnectAttempts ≤ reconnectAttempts c) then c
  else
    let c := set_reconnectAttempts (S (reconnectAttempts c)) c in
    let delay :=
      (reconnectDelay * 2 ^ (Z.of_nat (reconnectAttempts c) - 1))%Z in
    setTimeout delay c.

(** [ws.onclose] *)
Definition onclose (c : WSClient) : WSClient := attemptReconnect c.

(** [isConnected()] *)
Definition isConnected (c : WSClient) : bool :=
  match ws c with
  | Some id => bool_decide (sockets c !! id = Some OPEN)
  | None => false
  end.

(** [options.address || "127.0.0.1"] *)
Definition address_or_default (o : option string) : string :=
  match o with
  | Some s => if decide (s = "") then "127.0.0.1" else s
  | None => "127.0.0.1"
  end.

(** A number is falsy when it is 0 or NaN. *)
Definition truthy (n : number) : bool :=
  match n with
  | Finite q => negb (Qnum q =? 0)%Z
  | NaN => false
  | PosInfinity | NegInfinity => true
  end.

(** [options.port || 6454] *)
Definition port_or_default (o : option number) : number :=
  match o with
  | Some n => if truthy n then n else Finite 6454
  | None => Finite 6454
  end.

Definition number_of_byte (b : byte) : number :=
  Finite (inject_Z (Z.of_N (Byte.to_N b))).

(** [Array.isArray(options.data) ? options.data : Array.from(options.data)] *)
Definition data_array (d : list number + list byte) : list number :=
  match d with
  | inl numbers => numbers
  | inr buf => number_of_byte <$> buf
  end.

(** The [msg] object of [sendUDP] and [sendUDPNoEcho]. *)
Definition request_message (type : string) (options : SendOptions) : json :=
  JObj [("type", JStr type);
        ("address", JStr (address_or_default (address options)));
        ("port", JNum (port_or_default (port options)));
        ("data", JArr (JNum <$> data_array (data options)))].

(** The body shared by [sendUDP] and [sendUDPNoEcho]; [None] when it
    throws because the WebSocket is not connected. *)
Definition send_request (type : string) (options : SendOptions) (c : WSClient)
    : option WSClient :=
  match ws c with
  | Some id =>
      if bool_decide (sockets c !! id = Some OPEN)
      then Some (ws_send id (request_message type options) c)
      else None
  | None => None
  end.

Definition sendUDP : SendOptions → WSClient → option WSClient :=
  send_request "udp-send".

Definition sendUDPNoEcho : SendOptions → WSClient → option WSClient :=
  send_request "udp-send-no-echo".

(** [onMessage(handler)] *)
Definition onMessage (h : nat) (c : WSClient) : WSClient :=
  set_messageHandlers (messageHandlers c ++ [h]) c.

(** [clearHandlers()] *)
Definition clearHandlers (c : WSClient) : WSClient :=
  set_messageHandlers [] c.

(** [ws.close()] on a WebSocket that is connecting or open starts its
    closing handshake. *)
Definition ws_close (id : nat) (c : WSClient) : WSClient :=
  match sockets c !! id with
  | Some CONNECTING | Some OPEN => set_readyState id CLOSING c
  | _ => c
  end.

(** [disconnect()] *)
Definition disconnect (c : WSClient) : WSClient :=
  match ws c with
  | Some id => set_ws None (ws_close id c)
  | None => c
  end.

(** What happens to a client: the calls of its user, the events of its
    WebSockets (a WebSocket is [OPEN] when [onopen] runs and [CLOSED] when
    [onclose] runs), and the timer of [attemptReconnect] firing. *)
Inductive event :=
| Connect
| OnOpen (id : nat)
| OnMessage (id : nat) (parsed : option json)
| OnError (id : nat)
| OnClose (id : nat)
| TimerFires
| SendUDP (options : SendOptions)
| SendUDPNoEcho (options : SendOptions)
| RegisterHandler (h : nat)
| ClearHandlers
| Disconnect.

Definition step (c : WSClient) (e : event) : WSClient :=
  match e with
  | Connect | TimerFires => connect c
  | OnOpen id => onopen (set_readyState id OPEN c)
  | OnMessage id parsed => onmessage parsed c
  | OnError id => c
  | OnClose id => onclose (set_readyState id CLOSED c)
  | SendUDP options => default c (sendUDP options c)
  | SendUDPNoEcho options => default c (sendUDPNoEcho options c)
  | RegisterHandler h => onMessage h c
  | ClearHandlers => clearHandlers c
  | Disconnect => disconnect c
  end.

Definition run (c : WSClient) (evs : list event) : WSClient :=
  foldl step c evs.

(** [JSON.parse(JSON.stringify(n))] for a number: one that is not finite
    is written as [null]. *)
Definition wire_number (n : number) : json :=
  match n with
  | Finite q => JNum (Finite q)
  | PosInfinity | NegInfinity | NaN => JNull
  end.

(** [JSON.parse(JSON.stringify(v))]: what the bridge reads when the client
    has sent [v].  Numbers that are not finite come back as [null]; the
    rest comes back as it was. *)
Fixpoint wire (v : json) : json :=
  match v with
  | JNum n => wire_number n
  | JArr elements =>
      JArr ((fix go (l : list json) : list json :=
               match l with
               | [] => []
               | x :: l' => wire x :: go l'
               end) elements)
  | JObj props =>
      JObj ((fix go (l : list (string * json)) : list (string * json) :=
               match l with
               | [] => []
               | (k, x) :: l' => (k, wire x) :: go l'
               end) props)
  | JNull | JBool _ | JStr _ => v
  end.

(** The bytes a request asks to send. *)
Definition payload_of (options : SendOptions) : list byte :=
  match data options with
  | inl numbers => ToUint8 <$> numbers
  | inr buf => buf
  end.

End Client.

(** A client whose first WebSocket has opened. *)
Definition a_connected_client : Client.WSClient :=
  Client.run Client.new [Client.Connect; Client.OnOpen 0].

(** ** Strings and keys *)

Lemma string_app_assoc (s1 s2 s3 : string) :
  (s1 +:+ s2) +:+ s3 = s1 +:+ s2 +:+ s3.
Proof.
  induction s1 as [|c s1 IH]; [done|].
  change (String c ((s1 +:+ s2) +:+ s3) = String c (s1 +:+ s2 +:+ s3)).
  by rewrite IH.
Qed.

Lemma string_app_cons (c : ascii) (s1 s2 : string) :
  String c s1 +:+ s2 = String c (s1 +:+ s2).
Proof. done. Qed.

Lemma string_app_nil_l (s : string) : "" +:+ s = s.
Proof. done. Qed.

Lemma pretty_N_char_digit (n : N) : is_digit (pretty_N_char n) = true.
Proof. unfold pretty_N_char. by repeat case_match. Qed.

Lemma pretty_N_go_digits (x : N) (s : string) :
  all_digits s → all_digits (pretty_N_go x s).
Proof.
  revert s. induction (N.lt_wf_0 x) as [x _ IH]; intros s Hs.
  destruct (decide (x = 0%N)) as [->|Hx]; [by rewrite pretty_N_go_0|].
  rewrite pretty_N_go_step by lia.
  apply IH; [apply N.div_lt; lia|].
  split; [apply pretty_N_char_digit|done].
Qed.

Lemma pretty_N_go_nonempty (x : N) (s : string) :
  s ≠ "" → pretty_N_go x s ≠ "".
Proof.
  revert s. induction (N.lt_wf_0 x) as [x _ IH]; intros s Hs.
  destruct (decide (x = 0%N)) as [->|Hx]; [by rewrite pretty_N_go_0|].
  rewrite pretty_N_go_step by lia.
  apply IH; [apply N.div_lt; lia|done].
Qed.

Lemma pretty_N_digits (n : N) : all_digits (pretty n).
Proof.
  unfold pretty, pretty_N. case_decide; [done|].
  by apply pretty_N_go_digits.
Qed.

Lemma pretty_N_nonempty (n : N) : pretty n ≠ "".
Proof.
  unfold pretty, pretty_N. case_decide; [done|].
  rewrite pretty_N_go_step by lia.
  by apply pretty_N_go_nonempty.
Qed.

(** A run of digits followed by a non-digit splits in one way only. *)
Lemma digits_split (d1 d2 r1 r2 : string) :
  all_digits d1 → all_digits d2 → stops r1 → stops r2 →
  d1 +:+ r1 = d2 +:+ r2 → d1 = d2 ∧ r1 = r2.
Proof.
  revert d2. induction d1 as [|c1 d1 IH]; intros [|c2 d2] H1 H2 Hr1 Hr2 Heq.
  - done.
  - rewrite string_app_nil_l, string_app_cons in Heq. subst r1.
    destruct H2 as [Hc _]. simpl in Hr1. congruence.
  - rewrite string_app_nil_l, string_app_cons in Heq. subst r2.
    destruct H1 as [Hc _]. simpl in Hr2. congruence.
  - rewrite !string_app_cons in Heq. injection Heq as -> Heq.
    destruct H1 as [_ H1], H2 as [_ H2].
    destruct (IH d2 H1 H2 Hr1 Hr2 Heq) as [-> ->]. done.
Qed.

Lemma join_joined_then (x : string) (l : list string) (k : string) :
  join "," (x :: l) +:+ k = x +:+ joined_then l k.
Proof.
  revert x. induction l as [|y l IH]; intros x; [done|].
  change (join "," (x :: y :: l)) with (x +:+ "," +:+ join "," (y :: l)).
  rewrite !string_app_assoc, IH. done.
Qed.

Lemma joined_then_stops (l : list string) (k : string) :
  stops k → stops (joined_then l k).
Proof. destruct l; [done|]. intros _. done. Qed.

Lemma joined_then_inj (l1 l2 : list string) (k : string) :
  Forall all_digits l1 → Forall all_digits l2 →
  stops k → (∀ s, k ≠ "," +:+ s) →
  joined_then l1 k = joined_then l2 k → l1 = l2.
Proof.
  intros H1 H2 Hk Hcomma. revert l2 H2.
  induction H1 as [|x l1 Hx H1 IH]; intros l2 H2 Heq;
    destruct H2 as [|y l2 Hy H2]; simpl in Heq.
  - done.
  - by destruct (Hcomma _ Heq).
  - by destruct (Hcomma _ (eq_sym Heq)).
  - rewrite !string_app_cons, !string_app_nil_l in Heq.
    injection Heq as Heq.
    apply digits_split in Heq as [-> Heq];
      auto using joined_then_stops.
    f_equal. by apply IH.
Qed.

Lemma join_then_inj (l1 l2 : list string) (k : string) :
  Forall (λ s, all_digits s ∧ s ≠ "") l1 →
  Forall (λ s, all_digits s ∧ s ≠ "") l2 →
  stops k → (∀ s, k ≠ "," +:+ s) →
  join "," l1 +:+ k = join "," l2 +:+ k → l1 = l2.
Proof.
  intros H1 H2 Hk Hcomma Heq.
  assert (∀ x l, Forall (λ s, all_digits s ∧ s ≠ "") (x :: l) →
            k ≠ x +:+ joined_then l k) as Hne.
  { intros x l Hxl Hkeq. apply Forall_cons in Hxl as [[Hx Hx'] _].
    destruct x as [|c x]; [done|].
    rewrite Hkeq, string_app_cons in Hk. simpl in Hk.
    destruct Hx. congruence. }
  destruct l1 as [|x l1], l2 as [|y l2].
  - done.
  - rewrite join_joined_then in Heq. by destruct (Hne y l2).
  - rewrite join_joined_then in Heq. by destruct (Hne x l1).
  - rewrite !join_joined_then in Heq.
    apply Forall_cons in H1 as [[Hx _] H1], H2 as [[Hy _] H2].
    apply digits_split in Heq as [-> Heq]; auto using joined_then_stops.
    f_equal. apply (joined_then_inj _ _ k); auto.
    + eapply Forall_impl; [exact H1|]. by intros ? [].
    + eapply Forall_impl; [exact H2|]. by intros ? [].
Qed.

Lemma byte_to_N_inj (b1 b2 : byte) : Byte.to_N b1 = Byte.to_N b2 → b1 = b2.
Proof.
  intros Heq. pose proof (Byte.of_to_N b1) as H1.
  rewrite Heq, Byte.of_to_N in H1. congruence.
Qed.

Lemma join_bytes_inj (l1 l2 : list byte) (k : string) :
  stops k → (∀ s, k ≠ "," +:+ s) →
  join "," ((λ b, pretty (Byte.to_N b)) <$> l1) +:+ k
  = join "," ((λ b, pretty (Byte.to_N b)) <$> l2) +:+ k →
  l1 = l2.
Proof.
  intros Hk Hcomma Heq. apply join_then_inj in Heq; [|..|done|done].
  - revert Heq. apply list_fmap_eq_inj.
    intros b1 b2 Hb. apply byte_to_N_inj. by apply (inj pretty).
  - apply Forall_fmap, Forall_true. intros b. simpl.
    split; [apply pretty_N_digits|apply pretty_N_nonempty].
  - apply Forall_fmap, Forall_true. intros b. simpl.
    split; [apply pretty_N_digits|apply pretty_N_nonempty].
Qed.

Ltac peel_strings H :=
  repeat (rewrite string_app_cons in H || rewrite string_app_nil_l in H);
  repeat (injection H as H).

(** Two buffers have the same key in [sentMessages] only if they hold the
    same bytes. *)
Lemma stringify_data_inj (l1 l2 : list byte) :
  stringify_data l1 = stringify_data l2 → l1 = l2.
Proof.
  unfold stringify_data, stringify_bytes, quoted. intros Heq.
  peel_strings Heq.
  rewrite !string_app_assoc in Heq.
  apply (join_bytes_inj l1 l2 ("]" +:+ "}")); [done| |done].
  intros s. discriminate.
Qed.




(** ** The sweep *)

Lemma sweep_entries_lookup (now : Z) (m : gmap string Z) (key : string) :
  sweep_entries now m !! key =
    match m !! key with
    | Some timestamp =>
        if decide (now - timestamp > NO_ECHO_TIMEOUT)%Z
        then None else Some timestamp
    | None => None
    end.
Proof.
  unfold sweep_entries.
  cut (∀ m0 : gmap string Z,
    (λ (r : gmap string Z) (m' : gmap string Z), ∀ k,
       r !! k = match m' !! k with
                | Some timestamp =>
                    if decide (now - timestamp > NO_ECHO_TIMEOUT)%Z
                    then None else m0 !! k
                | None => m0 !! k
                end)
      (map_fold (λ key timestamp acc,
         if decide (now - timestamp > NO_ECHO_TIMEOUT)%Z
         then delete key acc else acc) m0 m) m).
  { intros Hcut. rewrite (Hcut m key).
    destruct (m !! key) eqn:Hk; [|done]. by case_decide. }
  intros m0. apply map_fold_weak_ind.
  - intros k. by rewrite lookup_empty.
  - intros i x m' r Hi IH k. destruct (decide (i = k)) as [->|Hne].
    + rewrite lookup_insert_eq. case_decide.
      * by rewrite lookup_delete_eq.
      * by rewrite IH, Hi.
    + rewrite lookup_insert_ne by done. rewrite <-IH.
      case_decide; [by rewrite lookup_delete_ne|done].
Qed.

Lemma sweep_keeps (now timestamp : Z) (st : bridge) (key : string) :
  sentMessages st !! key = Some timestamp →
  ¬ expired now timestamp →
  sentMessages (sweep now st) !! key = Some timestamp.
Proof.
  intros Hk Hfresh. simpl. rewrite sweep_entries_lookup, Hk.
  by case_decide.
Qed.

Lemma sweep_deletes (now timestamp : Z) (st : bridge) (key : string) :
  sentMessages st !! key = Some timestamp →
  expired now timestamp →
  sentMessages (sweep now st) !! key = None.
Proof.
  intros Hk Hold. simpl. rewrite sweep_entries_lookup, Hk.
  by case_decide.
Qed.

Lemma sweep_absent (now : Z) (st : bridge) (key : string) :
  sentMessages st !! key = None →
  sentMessages (sweep now st) !! key = None.
Proof. intros Hk. simpl. by rewrite sweep_entries_lookup, Hk. Qed.

(** ** Fan-out *)

Lemma has_true (m : gmap string Z) (key : string) :
  has m key = true ↔ is_Some (m !! key).
Proof. unfold has. by rewrite bool_decide_eq_true. Qed.

Lemma has_false (m : gmap string Z) (key : string) :
  has m key = false ↔ m !! key = None.
Proof.
  unfold has. rewrite bool_decide_eq_false. by rewrite eq_None_not_Some.
Qed.

Lemma push_frames_nil (st : bridge) : push_frames [] st = st.
Proof. destruct st. unfold push_frames. simpl. by rewrite app_nil_r. Qed.

Lemma push_frames_app (fs1 fs2 : list (nat * string)) (st : bridge) :
  push_frames fs2 (push_frames fs1 st) = push_frames (fs1 ++ fs2) st.
Proof. unfold push_frames. simpl. by rewrite app_assoc. Qed.

Lemma udpHandler_suppressed ws msg rinfo st :
  is_Some (sentMessages st !! stringify_data msg) →
  udpHandler ws msg rinfo st = st.
Proof. intros H%has_true. unfold udpHandler. by rewrite H. Qed.

Lemma udpHandler_forward ws msg rinfo st :
  sentMessages st !! stringify_data msg = None →
  udpHandler ws msg rinfo st =
    push_frames
      (if decide (readyState st !! ws = Some OPEN)
       then [(ws, udp_message msg rinfo)] else []) st.
Proof.
  intros H%has_false. unfold udpHandler. rewrite H.
  case_decide as Hrs.
  - by rewrite Hrs.
  - rewrite push_frames_nil.
    destruct (readyState st !! ws) as [[]|]; done.
Qed.

Lemma emit_message_suppressed msg rinfo st :
  is_Some (sentMessages st !! stringify_data msg) →
  emit_message msg rinfo st = st.
Proof.
  intros H. unfold emit_message. induction (listeners st) as [|ws l IH];
    [done|]. simpl. by rewrite udpHandler_suppressed.
Qed.

Lemma emit_message_forward msg rinfo st :
  sentMessages st !! stringify_data msg = None →
  emit_message msg rinfo st =
    push_frames ((λ ws, (ws, udp_message msg rinfo)) <$> open_listeners st) st.
Proof.
  intros H. unfold emit_message, open_listeners.
  cut (∀ l fs,
    foldl (λ s ws, udpHandler ws msg rinfo s) (push_frames fs st) l =
    push_frames
      (fs ++ ((λ ws, (ws, udp_message msg rinfo)) <$>
                filter (λ ws, readyState st !! ws = Some OPEN) l)) st).
  { intros Hcut. specialize (Hcut (listeners st) []).
    by rewrite push_frames_nil in Hcut. }
  induction l as [|ws l IH]; intros fs; simpl.
  - by rewrite app_nil_r.
  - rewrite udpHandler_forward by done. simpl.
    rewrite push_frames_app, IH, filter_cons.
    case_decide; simpl; [|by rewrite app_nil_r].
    by rewrite <-app_assoc.
Qed.

Lemma new_frames_push fs st : new_frames st (push_frames fs st) = fs.
Proof. unfold new_frames. simpl. by rewrite drop_app_length. Qed.

Lemma new_frames_same st : new_frames st st = [].
Proof. unfold new_frames. by rewrite drop_all. Qed.

Lemma delivered_to_fanout (ws : nat) (text : string) (l : list nat) :
  NoDup l →
  delivered_to ws ((λ w, (w, text)) <$> l) =
    if decide (ws ∈ l) then [text] else [].
Proof.
  unfold delivered_to. induction 1 as [|w l Hw Hl IH]; [done|].
  rewrite fmap_cons, filter_cons. simpl.
  destruct (decide (w = ws)) as [->|Hne].
  - rewrite fmap_cons, IH. simpl.
    destruct (decide (ws ∈ l)); [done|].
    destruct (decide (ws ∈ ws :: l)) as [|Hout]; [done|].
    destruct Hout. left.
  - rewrite IH. destruct (decide (ws ∈ l)) as [Hin|Hin].
    + rewrite decide_True; [done|by right].
    + rewrite decide_False; [done|]. by intros [?|?]%elem_of_cons.
Qed.

Lemma elem_of_open_listeners (st : bridge) (ws : nat) :
  ws ∈ open_listeners st ↔ connected st ws.
Proof.
  unfold open_listeners, connected. rewrite list_elem_of_filter. tauto.
Qed.

(** ** Subscriptions *)

Lemma remove_first_elem_of (ws x : nat) (l : list nat) :
  x ∈ remove_first ws l → x ∈ l.
Proof.
  induction l as [|y l IH]; simpl; [done|].
  case_decide; rewrite !elem_of_cons; [by right|].
  intros [->|?]; [by left|right; auto].
Qed.

Lemma remove_first_other (ws x : nat) (l : list nat) :
  x ≠ ws → x ∈ l → x ∈ remove_first ws l.
Proof.
  intros Hne. induction l as [|y l IH]; simpl; [done|].
  rewrite elem_of_cons. intros [->|Hin].
  - rewrite decide_False by done. by left.
  - case_decide; [done|]. right. auto.
Qed.

Lemma remove_first_NoDup (ws : nat) (l : list nat) :
  NoDup l → NoDup (remove_first ws l).
Proof.
  induction 1 as [|y l Hy Hl IH]; simpl; [constructor|].
  case_decide; [done|]. constructor; [|done].
  intros Hin. by apply Hy, (remove_first_elem_of ws).
Qed.

Lemma remove_first_gone (ws : nat) (l : list nat) :
  NoDup l → ws ∉ remove_first ws l.
Proof.
  induction 1 as [|y l Hy Hl IH]; simpl; [apply not_elem_of_nil|].
  case_decide as Heq; [by subst|].
  rewrite elem_of_cons. intros [->|?]; [done|auto].
Qed.

Lemma NoDup_reverse (l : list nat) : NoDup l → NoDup (reverse l).
Proof. by rewrite reverse_Permutation. Qed.

Lemma off_elem_of (ws x : nat) (l : list nat) :
  NoDup l → x ∈ off ws l ↔ x ∈ l ∧ x ≠ ws.
Proof.
  intros Hl. unfold off. rewrite elem_of_reverse. split.
  - intros Hin. split.
    + apply remove_first_elem_of in Hin. by rewrite elem_of_reverse in Hin.
    + intros ->. revert Hin. apply remove_first_gone.
      by apply NoDup_reverse.
  - intros [Hin Hne]. apply remove_first_other; [done|].
    by rewrite elem_of_reverse.
Qed.

Lemma off_NoDup (ws : nat) (l : list nat) : NoDup l → NoDup (off ws l).
Proof.
  intros Hl. unfold off. apply NoDup_reverse, remove_first_NoDup.
  by apply NoDup_reverse.
Qed.

Lemma emit_message_pushes msg rinfo st :
  ∃ fs, emit_message msg rinfo st = push_frames fs st.
Proof.
  destruct (sentMessages st !! stringify_data msg) eqn:Hk.
  - exists []. rewrite push_frames_nil. by apply emit_message_suppressed.
  - eexists. by apply emit_message_forward.
Qed.

Section Handlers.

Variable exotic : json → error + list byte.

Ltac run_handler :=
  unfold message, message_body, try_catch, udpSocket_send, lift, effect,
    JSON_parse, mbind, handler_bind, mret, handler_ret; simpl.

(** *** What one client message does *)

Lemma message_not_ready ws now parsed net st :
  udpReady st ≠ Fulfilled → message exotic ws now parsed net st = st.
Proof. unfold message. by destruct (udpReady st). Qed.

Lemma message_not_json ws now net st :
  udpReady st = Fulfilled →
  message exotic ws now None net st = recover SyntaxError st.
Proof. intros Hr. run_handler. by rewrite Hr. Qed.

Lemma message_of_null ws now net st :
  udpReady st = Fulfilled →
  message exotic ws now (Some JNull) net st = recover TypeError st.
Proof. intros Hr. run_handler. by rewrite Hr. Qed.

Lemma message_other_type ws now msg type net st :
  Get msg "type" = inr type →
  strict_equals type "udp-send" = false →
  strict_equals type "udp-send-no-echo" = false →
  message exotic ws now (Some msg) net st = st.
Proof.
  intros Ht H1 H2. run_handler. rewrite Ht, H1, H2.
  by destruct (udpReady st).
Qed.

Lemma request_Some type msg P :
  request exotic type (Some msg) = Some P →
  ∃ t data, Get msg "type" = inr t ∧ strict_equals t type = true ∧
            Get msg "data" = inr data ∧
            Buffer_from exotic data = inr P.
Proof.
  unfold request. intros H.
  destruct (Get msg "type") as [|t] eqn:Ht; [done|].
  destruct (Get msg "data") as [|data] eqn:Hd; [done|].
  destruct (strict_equals t type) eqn:Hs; [|done].
  destruct (Buffer_from exotic data) as [|buf] eqn:Hb; [done|].
  exists t, data. by simplify_eq.
Qed.

Lemma strict_equals_true v s : strict_equals v s = true → v = Some (JStr s).
Proof.
  destruct v as [[]|]; simpl; try done.
  by intros ->%bool_decide_eq_true.
Qed.

Lemma Get_total msg key key' v :
  Get msg key = inr v → Get msg key' = inr (prop msg key').
Proof. unfold prop. destruct msg; simpl; done. Qed.

(** A plain send hands the buffer to the socket and does nothing else. *)
Lemma message_udp_send ws now msg P net st :
  udpReady st = Fulfilled →
  request exotic "udp-send" (Some msg) = Some P →
  message exotic ws now (Some msg) net st =
    try_catch (udpSocket_send P (prop msg "port") (prop msg "address") net)
      recover st.
Proof.
  intros Hr (t & data & Ht & ->%strict_equals_true & Hd & Hb)%request_Some.
  run_handler. rewrite Hr, Ht. simpl. rewrite Hd. simpl. rewrite Hb.
  rewrite (Get_total _ _ "port" _ Ht), (Get_total _ _ "address" _ Ht).
  by destruct net.
Qed.

(** A send without echo sets the key, and only then hands the buffer to
    the socket. *)
Lemma message_udp_send_no_echo ws now msg P net st :
  udpReady st = Fulfilled →
  request exotic "udp-send-no-echo" (Some msg) = Some P →
  message exotic ws now (Some msg) net st =
    try_catch (udpSocket_send P (prop msg "port") (prop msg "address") net)
      recover (sentMessages_set (stringify_data P) now st).
Proof.
  intros Hr (t & data & Ht & ->%strict_equals_true & Hd & Hb)%request_Some.
  run_handler. rewrite Hr, Ht. simpl. rewrite Hd. simpl. rewrite Hb.
  rewrite (Get_total _ _ "port" _ Ht), (Get_total _ _ "address" _ Ht).
  by destruct net.
Qed.

(** [websocket.message] in one piece: what it does, by the shape of the
    message. *)
Lemma message_unfold ws now parsed net st :
  message exotic ws now parsed net st =
    match udpReady st with
    | Fulfilled =>
        match parsed with
        | None => recover SyntaxError st
        | Some msg =>
            match Get msg "type" with
            | inl err => recover err st
            | inr type =>
                if strict_equals type "udp-send" then
                  match Buffer_from exotic (prop msg "data") with
                  | inl err => recover err st
                  | inr buf =>
                      try_catch
                        (udpSocket_send buf (prop msg "port")
                           (prop msg "address") net) recover st
                  end
                else if strict_equals type "udp-send-no-echo" then
                  match Buffer_from exotic (prop msg "data") with
                  | inl err => recover err st
                  | inr buf =>
                      try_catch
                        (udpSocket_send buf (prop msg "port")
                           (prop msg "address") net) recover
                        (sentMessages_set (stringify_data buf) now st)
                  end
                else st
            end
        end
    | Pending | Rejected => st
    end.
Proof.
  destruct (udpReady st) eqn:Hr;
    [by apply message_not_ready; rewrite Hr| |
     by apply message_not_ready; rewrite Hr].
  destruct parsed as [msg|]; [|by apply message_not_json].
  destruct (Get msg "type") as [err|type] eqn:Ht.
  { destruct msg; simplify_eq/=. by apply message_of_null. }
  destruct (strict_equals type "udp-send") eqn:H1.
  { apply strict_equals_true in H1 as ->.
    run_handler. rewrite Hr, Ht. simpl.
    rewrite !(Get_total _ _ _ _ Ht). simpl.
    destruct (Buffer_from exotic (prop msg "data")); [done|].
    by destruct net. }
  destruct (strict_equals type "udp-send-no-echo") eqn:H2;
    [|by eapply message_other_type].
  apply strict_equals_true in H2 as ->.
  run_handler. rewrite Hr, Ht. simpl.
  rewrite !(Get_total _ _ _ _ Ht). simpl.
  destruct (Buffer_from exotic (prop msg "data")); [done|].
  by destruct net.
Qed.

(** A client message touches neither the subscriptions nor the channels
    nor the frames already written. *)
Lemma message_channels ws now parsed net st :
  let st' := message exotic ws now parsed net st in
  udpReady st' = udpReady st ∧ listeners st' = listeners st ∧
  readyState st' = readyState st ∧ frames st' = frames st ∧
  next_ws st' = next_ws st.
Proof.
  simpl. rewrite message_unfold.
  repeat case_match; try done; by destruct net.
Qed.

(** The only client message that writes to [sentMessages] is a send
    without echo whose [data] makes a buffer; it sets that buffer's key to
    the time of the call, whatever the socket then does. *)
Lemma message_sentMessages ws now parsed net st :
  sentMessages (message exotic ws now parsed net st) =
    match udpReady st, request exotic "udp-send-no-echo" parsed with
    | Fulfilled, Some P => <[stringify_data P := now]> (sentMessages st)
    | _, _ => sentMessages st
    end.
Proof.
  rewrite message_unfold. unfold request.
  destruct (udpReady st); [done| |done].
  destruct parsed as [msg|]; [|done].
  destruct (Get msg "type") as [err|type] eqn:Ht; [done|].
  rewrite (Get_total _ _ "data" _ Ht).
  destruct (strict_equals type "udp-send") eqn:H1.
  { apply strict_equals_true in H1 as ->. simpl.
    destruct (Buffer_from exotic (prop msg "data")); [done|].
    by destruct net. }
  destruct (strict_equals type "udp-send-no-echo"); [|done].
  destruct (Buffer_from exotic (prop msg "data")); [done|].
  by destruct net.
Qed.

(** The datagrams a client message adds to the egress. *)
Lemma message_egress ws now parsed net st :
  egress (message exotic ws now parsed net st) =
    egress st ++
    match udpReady st, parsed, net with
    | Fulfilled, Some msg, SendOk =>
        match request exotic "udp-send" parsed,
              request exotic "udp-send-no-echo" parsed with
        | Some P, _ | None, Some P =>
            [{| payload := P; dest_port := prop msg "port";
                dest_address := prop msg "address" |}]
        | None, None => []
        end
    | _, _, _ => []
    end.
Proof.
  rewrite message_unfold. unfold request.
  destruct (udpReady st); [by rewrite app_nil_r| |by rewrite app_nil_r].
  destruct parsed as [msg|]; [|by rewrite app_nil_r].
  destruct (Get msg "type") as [err|type] eqn:Ht.
  { destruct net; by rewrite app_nil_r. }
  rewrite (Get_total _ _ "data" _ Ht).
  destruct (strict_equals type "udp-send") eqn:H1.
  { destruct (Buffer_from exotic (prop msg "data"));
      destruct net; simpl; try done; try by rewrite app_nil_r.
    all: by destruct (strict_equals type "udp-send-no-echo");
      rewrite app_nil_r. }
  destruct (strict_equals type "udp-send-no-echo").
  - destruct (Buffer_from exotic (prop msg "data"));
      destruct net; simpl; try done; by rewrite app_nil_r.
  - destruct net; by rewrite app_nil_r.
Qed.

End Handlers.

(** ** Runs of the event loop *)

Section Traces.

Variable exotic : json → error + list byte.

Lemma run_app st evs1 evs2 :
  run exotic st (evs1 ++ evs2) = run exotic (run exotic st evs1) evs2.
Proof. apply foldl_app. Qed.

Lemma run_cons st e evs :
  run exotic st (e :: evs) = run exotic (step exotic st e) evs.
Proof. done. Qed.

Lemma initial_well_formed : well_formed initial.
Proof.
  split; [constructor|]. intros ws Hin. by apply elem_of_nil in Hin.
Qed.

Lemma step_well_formed st e :
  well_formed st → well_formed (step exotic st e).
Proof.
  intros [Hnd Hlt]. destruct e as [| | now|msg rinfo| |ws now parsed net|ws|ws rs];
    simpl.
  - unfold listening. by destruct (udpReady st).
  - unfold socket_error. by destruct (udpReady st).
  - done.
  - destruct (emit_message_pushes msg rinfo st) as [fs ->]. done.
  - split; simpl.
    + unfold on. apply NoDup_app. split_and!; [done| |apply NoDup_singleton].
      intros x Hx ->%list_elem_of_singleton. apply Hlt in Hx. lia.
    + unfold on. intros x [Hx| ->%list_elem_of_singleton]%elem_of_app;
        [apply Hlt in Hx|]; lia.
  - destruct (message_channels exotic ws now parsed net st)
      as (_ & Hl & _ & _ & Hn).
    unfold well_formed. by rewrite Hl, Hn.
  - split; simpl; [by apply off_NoDup|].
    intros x [Hx _]%off_elem_of; auto.
  - by case_decide.
Qed.

Lemma run_well_formed st evs :
  well_formed st → well_formed (run exotic st evs).
Proof.
  revert st. induction evs as [|e evs IH]; intros st Hst; [done|].
  rewrite run_cons. by apply IH, step_well_formed.
Qed.

Lemma step_next_ws st e : next_ws st ≤ next_ws (step exotic st e).
Proof.
  destruct e as [| | now|msg rinfo| |ws now parsed net|ws|ws rs]; simpl.
  - unfold listening. by destruct (udpReady st).
  - unfold socket_error. by destruct (udpReady st).
  - done.
  - by destruct (emit_message_pushes msg rinfo st) as [fs ->].
  - lia.
  - destruct (message_channels exotic ws now parsed net st)
      as (_ & _ & _ & _ & ->). done.
  - done.
  - by case_decide.
Qed.

(** What each event does to [sentMessages]. *)
Lemma step_sentMessages st e :
  sentMessages (step exotic st e) =
    match e with
    | Sweep now => sweep_entries now (sentMessages st)
    | Message ws now parsed net =>
        match udpReady st, request exotic "udp-send-no-echo" parsed with
        | Fulfilled, Some P => <[stringify_data P := now]> (sentMessages st)
        | _, _ => sentMessages st
        end
    | _ => sentMessages st
    end.
Proof.
  destruct e as [| | now|msg rinfo| |ws now parsed net|ws|ws rs]; simpl.
  - unfold listening. by destruct (udpReady st).
  - unfold socket_error. by destruct (udpReady st).
  - done.
  - by destruct (emit_message_pushes msg rinfo st) as [fs ->].
  - done.
  - apply message_sentMessages.
  - done.
  - by case_decide.
Qed.

(** An entry set at [t] is still there after any events whose clock
    readings lie between [t] and [t + NO_ECHO_TIMEOUT]: a sweep at such a
    time finds it no older than the window, and a later registration of
    the same payload only refreshes it. *)
Lemma step_keeps_entry st e key t :
  (∃ t', sentMessages st !! key = Some t' ∧ (t ≤ t')%Z) →
  clock_within t (t + NO_ECHO_TIMEOUT) e →
  ∃ t', sentMessages (step exotic st e) !! key = Some t' ∧ (t ≤ t')%Z.
Proof.
  intros (t' & Hk & Hle) Hclock. rewrite step_sentMessages.
  destruct e as [| | now|msg rinfo| |ws now parsed net|ws|ws rs];
    simpl in Hclock; eauto.
  - exists t'. split; [|done]. rewrite sweep_entries_lookup, Hk.
    rewrite decide_False; [done|]. unfold NO_ECHO_TIMEOUT in *. lia.
  - destruct (udpReady st); eauto.
    destruct (request exotic "udp-send-no-echo" parsed) as [P|]; eauto.
    destruct (decide (stringify_data P = key)) as [<-|Hne].
    + exists now. rewrite lookup_insert_eq. split; [done|lia].
    + exists t'. by rewrite lookup_insert_ne.
Qed.

Lemma run_keeps_entry st evs key t :
  (∃ t', sentMessages st !! key = Some t' ∧ (t ≤ t')%Z) →
  Forall (clock_within t (t + NO_ECHO_TIMEOUT)) evs →
  ∃ t', sentMessages (run exotic st evs) !! key = Some t' ∧ (t ≤ t')%Z.
Proof.
  intros Hst Hevs. revert st Hst.
  induction Hevs as [|e evs He Hevs IH]; intros st Hst; [done|].
  rewrite run_cons. eauto using step_keeps_entry.
Qed.

(** A payload that is not in the table stays out of it as long as no
    client registers it. *)
Lemma step_absent st e P :
  sentMessages st !! stringify_data P = None →
  quiet exotic P e →
  sentMessages (step exotic st e) !! stringify_data P = None.
Proof.
  intros Hk Hq. rewrite step_sentMessages.
  destruct e as [| | now|msg rinfo| |ws now parsed net|ws|ws rs];
    simpl in Hq; try done.
  - by rewrite sweep_entries_lookup, Hk.
  - destruct (udpReady st); try done.
    destruct (request exotic "udp-send-no-echo" parsed) as [Q|]; [|done].
    rewrite lookup_insert_ne; [done|].
    intros Heq%stringify_data_inj. congruence.
Qed.

Lemma run_absent st evs P :
  sentMessages st !! stringify_data P = None →
  Forall (quiet exotic P) evs →
  sentMessages (run exotic st evs) !! stringify_data P = None.
Proof.
  intros Hst Hevs. revert st Hst.
  induction Hevs as [|e evs He Hevs IH]; intros st Hst; [done|].
  rewrite run_cons. eauto using step_absent.
Qed.

(** *** When the bind fails

    The [error] listener logs and rejects [udpReady]; nothing binds the
    socket again.  A settled promise stays as it is, and while it is
    rejected no client message sends or registers anything. *)


Lemma step_udpReady st e :
  udpReady st ≠ Pending → udpReady (step exotic st e) = udpReady st.
Proof.
  intros Hset.
  destruct e as [| | now|msg rinfo| |ws now parsed net|ws|ws rs]; simpl.
  - unfold listening.
    destruct (udpReady st) eqn:Hr; simpl; [by destruct Hset|done..].
  - unfold socket_error.
    destruct (udpReady st) eqn:Hr; simpl; [by destruct Hset|done..].
  - done.
  - by destruct (emit_message_pushes msg rinfo st) as [fs ->].
  - done.
  - by destruct (message_channels exotic ws now parsed net st) as (-> & _).
  - done.
  - by case_decide.
Qed.

Lemma step_rejected st e :
  udpReady st = Rejected →
  egress (step exotic st e) = egress st ∧
  (∀ key, sentMessages st !! key = None →
          sentMessages (step exotic st e) !! key = None).
Proof.
  intros Hrej.
  destruct e as [| | now|msg rinfo| |ws now parsed net|ws|ws rs]; simpl.
  - unfold listening. by rewrite Hrej.
  - unfold socket_error. by rewrite Hrej.
  - split; [done|]. intros key Hk. by rewrite sweep_entries_lookup, Hk.
  - by destruct (emit_message_pushes msg rinfo st) as [fs ->].
  - done.
  - rewrite message_not_ready; [done|]. by rewrite Hrej.
  - done.
  - by case_decide.
Qed.

Lemma run_rejected st evs :
  udpReady st = Rejected →
  udpReady (run exotic st evs) = Rejected ∧
  egress (run exotic st evs) = egress st ∧
  (∀ key, sentMessages st !! key = None →
          sentMessages (run exotic st evs) !! key = None).
Proof.
  revert st. induction evs as [|e evs IH]; intros st Hrej; [done|].
  rewrite run_cons. destruct (step_rejected st e Hrej) as [Heg Hkeys].
  destruct (IH (step exotic st e)) as (? & ? & ?).
  - rewrite step_udpReady; [done|]. by rewrite Hrej.
  - split_and!; [done|congruence|auto].
Qed.

(** The log only grows. *)
Lemma step_console st e :
  ∃ lines, console (step exotic st e) = console st ++ lines.
Proof.
  destruct e as [| | now|msg rinfo| |ws now parsed net|ws|ws rs]; simpl.
  - exists [LogListening]. unfold listening. by destruct (udpReady st).
  - exists [LogSocketError]. unfold socket_error. by destruct (udpReady st).
  - exists []. by rewrite app_nil_r.
  - exists []. rewrite app_nil_r.
    by destruct (emit_message_pushes msg rinfo st) as [fs ->].
  - by exists [LogConnected].
  - rewrite message_unfold.
    repeat case_match; try destruct net; simpl;
      first [by exists []; rewrite app_nil_r | by eexists [_]].
  - by exists [LogDisconnected].
  - exists []. rewrite app_nil_r. by case_decide.
Qed.

Lemma run_console st evs entry :
  entry ∈ console st → entry ∈ console (run exotic st evs).
Proof.
  revert st. induction evs as [|e evs IH]; intros st Hin; [done|].
  rewrite run_cons. apply IH.
  destruct (step_console st e) as [lines ->]. apply elem_of_app. by left.
Qed.

End Traces.

(** ** Delivery *)

Section Delivery.

Variable exotic : json → error + list byte.

Lemma request_intro type msg data P :
  Get msg "type" = inr (Some (JStr type)) →
  Get msg "data" = inr data →
  Buffer_from exotic data = inr P →
  request exotic type (Some msg) = Some P.
Proof.
  intros Ht Hd Hb. unfold request. rewrite Ht, Hd. simpl.
  by rewrite bool_decide_true, Hb.
Qed.

Lemma request_other_type type type' msg :
  Get msg "type" = inr (Some (JStr type')) →
  type' ≠ type →
  request exotic type (Some msg) = None.
Proof.
  intros Ht Hne. unfold request. rewrite Ht. simpl.
  rewrite bool_decide_false by done. by destruct (Get msg "data").
Qed.

(** A datagram that matches no entry reaches each connected channel once,
    and no other channel. *)
Lemma fan_out st msg rinfo ws :
  well_formed st →
  sentMessages st !! stringify_data msg = None →
  delivered_to ws (new_frames st (emit_message msg rinfo st)) =
    if decide (ws ∈ open_listeners st) then [udp_message msg rinfo] else [].
Proof.
  intros [Hnd _] Hk. rewrite emit_message_forward, new_frames_push by done.
  apply delivered_to_fanout. by apply NoDup_filter.
Qed.

Lemma fan_out_connected st msg rinfo ws :
  well_formed st →
  sentMessages st !! stringify_data msg = None →
  connected st ws →
  delivered_to ws (new_frames st (emit_message msg rinfo st)) =
    [udp_message msg rinfo].
Proof.
  intros Hwf Hk Hc%elem_of_open_listeners.
  rewrite fan_out by done. by rewrite decide_True.
Qed.

Lemma fan_out_not_connected st msg rinfo ws :
  well_formed st →
  ¬ connected st ws →
  delivered_to ws (new_frames st (emit_message msg rinfo st)) = [].
Proof.
  intros Hwf Hc. destruct (sentMessages st !! stringify_data msg) eqn:Hk.
  - rewrite emit_message_suppressed by done. by rewrite new_frames_same.
  - rewrite fan_out by done. rewrite decide_False; [done|].
    by rewrite elem_of_open_listeners.
Qed.

Lemma suppressed_no_frames st msg rinfo :
  is_Some (sentMessages st !! stringify_data msg) →
  new_frames st (emit_message msg rinfo st) = [].
Proof.
  intros Hk. rewrite emit_message_suppressed by done. apply new_frames_same.
Qed.

(** An entry set at [t] is either still there or gone, as long as nobody
    registers the payload again. *)
Lemma step_fades st e P t :
  sentMessages st !! stringify_data P = Some t
    ∨ sentMessages st !! stringify_data P = None →
  quiet exotic P e →
  sentMessages (step exotic st e) !! stringify_data P = Some t
    ∨ sentMessages (step exotic st e) !! stringify_data P = None.
Proof.
  intros [Hk|Hk] Hq; [|right; by apply step_absent].
  rewrite step_sentMessages.
  destruct e as [| | now|msg rinfo| |ws now parsed net|ws|ws rs];
    simpl in Hq; auto.
  - rewrite sweep_entries_lookup, Hk. case_decide; auto.
  - destruct (udpReady st); auto.
    destruct (request exotic "udp-send-no-echo" parsed) as [Q|]; auto.
    rewrite lookup_insert_ne; [auto|].
    intros Heq%stringify_data_inj. congruence.
Qed.

Lemma run_fades st evs P t :
  sentMessages st !! stringify_data P = Some t
    ∨ sentMessages st !! stringify_data P = None →
  Forall (quiet exotic P) evs →
  sentMessages (run exotic st evs) !! stringify_data P = Some t
    ∨ sentMessages (run exotic st evs) !! stringify_data P = None.
Proof.
  intros Hst Hevs. revert st Hst.
  induction Hevs as [|e evs He Hevs IH]; intros st Hst; [done|].
  rewrite run_cons. eauto using step_fades.
Qed.

(** Once an entry is older than the window at a sweep, the payload is out
    of the table after that sweep and stays out. *)
Lemma swept_out st evs1 now evs2 P t :
  sentMessages st !! stringify_data P = Some t →
  Forall (quiet exotic P) evs1 →
  expired now t →
  Forall (quiet exotic P) evs2 →
  sentMessages (run exotic st (evs1 ++ Sweep now :: evs2))
    !! stringify_data P = None.
Proof.
  intros Hk H1 Hold H2. rewrite run_app, run_cons.
  apply run_absent; [|done]. simpl.
  destruct (run_fades st evs1 P t) as [Hk'|Hk']; auto.
  - by eapply sweep_deletes.
  - by apply sweep_absent.
Qed.





(** [Buffer.from] on an array of integers. *)
Lemma mapM_ToNumber_integers (zs : list Z) :
  mapM ToNumber_primitive (of_Z <$> zs)
  = Some ((λ z, Finite (inject_Z z)) <$> zs).
Proof.
  induction zs as [|z zs IH]; [done|].
  rewrite !fmap_cons. simpl. by rewrite IH.
Qed.

Lemma ToUint8_integer (z : Z) : ToUint8 (Finite (inject_Z z)) = uint8 z.
Proof. unfold ToUint8, truncate. simpl. by rewrite Z.quot_1_r. Qed.

Lemma Buffer_from_integers (zs : list Z) :
  Buffer_from exotic (Some (JArr (of_Z <$> zs))) = inr (uint8 <$> zs).
Proof.
  unfold Buffer_from. rewrite mapM_ToNumber_integers. f_equal.
  rewrite <-list_fmap_compose. apply list_fmap_ext.
  intros _ z _. apply ToUint8_integer.
Qed.

Lemma uint8_to_N (z : Z) : Byte.to_N (uint8 z) = Z.to_N (z `mod` 256).
Proof.
  unfold uint8. destruct (Byte.of_N (Z.to_N (z `mod` 256))) as [b|] eqn:Hb.
  - by apply Byte.to_of_N.
  - apply Byte.of_N_None_iff in Hb.
    pose proof (Z.mod_pos_bound z 256). lia.
Qed.

End Delivery.

(** ** The process *)

Section Exit.

Variable exotic : json → error + list byte.
Variable fatal : bool.








End Exit.

(** * The properties of the specification *)

Section Claims.

Variable exotic : json → error + list byte.

(** C1, as the code has it.  Let a payload [P] be registered by a send
    without echo at time [t].  (1) As long as every clock reading since
    then lies in [t .. t + 100], an inbound datagram with payload [P]
    reaches no client.  (2) Once a sweep has run at a time [now] with
    [now - t > 100], and nobody has registered [P] again, an inbound
    datagram with payload [P] reaches every connected client, once, and
    no other.  A sweep at exactly [t + 100] does not count: it finds the
    entry no older than the window and keeps it. *)
Theorem C1_echo_window evs0 ws t parsed net P :
  let st := run exotic initial evs0 in
  udpReady st = Fulfilled →
  request exotic "udp-send-no-echo" parsed = Some P →
  let st1 := message exotic ws t parsed net st in
  (∀ evs rinfo,
     Forall (clock_within t (t + NO_ECHO_TIMEOUT)) evs →
     let st2 := run exotic st1 evs in
     emit_message P rinfo st2 = st2) ∧
  (∀ evs1 now evs2 rinfo,
     Forall (quiet exotic P) evs1 →
     (now - t > NO_ECHO_TIMEOUT)%Z →
     Forall (quiet exotic P) evs2 →
     let st2 := run exotic st1 (evs1 ++ Sweep now :: evs2) in
     ∀ ws',
       (connected st2 ws' →
        delivered_to ws' (new_frames st2 (emit_message P rinfo st2))
        = [udp_message P rinfo]) ∧
       (¬ connected st2 ws' →
        delivered_to ws' (new_frames st2 (emit_message P rinfo st2)) = [])).
Proof.
  intros st Hready Hreq st1.
  assert (sentMessages st1 !! stringify_data P = Some t) as Hk.
  { unfold st1. rewrite message_sentMessages, Hready, Hreq.
    apply lookup_insert_eq. }
  assert (well_formed st1) as Hwf.
  { apply (step_well_formed exotic st (Message ws t parsed net)).
    apply run_well_formed, initial_well_formed. }
  split.
  - intros evs rinfo Hevs st2.
    destruct (run_keeps_entry exotic st1 evs (stringify_data P) t)
      as (t' & Hk' & _); [by exists t|done|].
    apply emit_message_suppressed. subst st2. by rewrite Hk'.
  - intros evs1 now evs2 rinfo H1 Hold H2 st2 ws'.
    assert (sentMessages st2 !! stringify_data P = None) as Hout
      by by eapply swept_out.
    assert (well_formed st2) as Hwf2 by by apply run_well_formed.
    split.
    + by apply fan_out_connected.
    + by apply fan_out_not_connected.
Qed.

(** C2, as the code has it.  For a client message handled while the
    socket is listening: it never closes a channel nor removes a
    subscription nor writes a frame; text that is not JSON is logged as an
    invalid message and otherwise ignored; a message whose [type] is
    neither [udp-send] nor [udp-send-no-echo] sends nothing and registers
    nothing; a message of one of these two types whose [data] does not make
    a buffer is logged as an invalid message and otherwise ignored; and so
    is a plain send that the socket rejects.  The bridge itself validates
    no field: whatever buffer [data] makes goes to the socket together with
    [port] and [address] as they are, and leaves if the socket takes
    it. *)
Theorem C2_malformed_messages st ws now parsed net :
  udpReady st = Fulfilled →
  let st' := message exotic ws now parsed net st in
  (listeners st' = listeners st ∧ readyState st' = readyState st ∧
   frames st' = frames st) ∧
  (parsed = None →
   st' = log (LogInvalidMessage SyntaxError) st ∧
   egress st' = egress st ∧ sentMessages st' = sentMessages st) ∧
  (∀ msg type,
     parsed = Some msg → Get msg "type" = inr type →
     strict_equals type "udp-send" = false →
     strict_equals type "udp-send-no-echo" = false →
     egress st' = egress st ∧ sentMessages st' = sentMessages st) ∧
  (∀ msg type err,
     parsed = Some msg → Get msg "type" = inr (Some (JStr type)) →
     type = "udp-send" ∨ type = "udp-send-no-echo" →
     Buffer_from exotic (prop msg "data") = inl err →
     st' = log (LogInvalidMessage err) st ∧
     egress st' = egress st ∧ sentMessages st' = sentMessages st) ∧
  (∀ msg P,
     parsed = Some msg → request exotic "udp-send" parsed = Some P →
     net = SendThrows →
     st' = log (LogInvalidMessage SystemError) st ∧
     egress st' = egress st ∧ sentMessages st' = sentMessages st) ∧
  (∀ msg P,
     parsed = Some msg → request exotic "udp-send" parsed = Some P →
     net = SendOk →
     egress st' =
       egress st ++ [{| payload := P; dest_port := prop msg "port";
                        dest_address := prop msg "address" |}]).
Proof.
  intros Hready st'. refine (conj _ (conj _ (conj _ (conj _ (conj _ _))))).
  - destruct (message_channels exotic ws now parsed net st)
      as (_ & ? & ? & ? & _). done.
  - intros ->. unfold st'. by rewrite message_not_json.
  - intros msg type -> Ht H1 H2. unfold st'.
    by rewrite (message_other_type exotic ws now msg type).
  - intros msg type err -> Ht Htype Hb. unfold st'.
    rewrite message_unfold, Hready, Ht, Hb.
    by destruct Htype as [-> | ->].
  - intros msg P -> Hreq ->. unfold st'.
    by rewrite (message_udp_send exotic ws now msg P).
  - intros msg P -> Hreq ->. unfold st'.
    by rewrite (message_udp_send exotic ws now msg P).
Qed.

(** C3, as the code has it.  The discriminator is the [type] property.
    A message whose [type] is ["udp-send-no-echo"], whose [data] makes the
    buffer [P] and whose send the socket accepts, registers [P] and sends
    it.  From then on, while the clock readings stay within 50 ms of the
    registration, an inbound datagram with payload [P] changes nothing: it
    reaches no client.  A datagram arriving at the same moment with another
    payload [Q], one that nobody has registered, reaches every connected
    client once and no other. *)
Theorem C3_type_udp_send_no_echo evs0 ws now msg P :
  let st := run exotic initial evs0 in
  udpReady st = Fulfilled →
  Get msg "type" = inr (Some (JStr "udp-send-no-echo")) →
  Buffer_from exotic (prop msg "data") = inr P →
  let st1 := message exotic ws now (Some msg) SendOk st in
  sentMessages st1 = <[stringify_data P := now]> (sentMessages st) ∧
  egress st1 =
    egress st ++ [{| payload := P; dest_port := prop msg "port";
                     dest_address := prop msg "address" |}] ∧
  ∀ evs,
    Forall (clock_within now (now + 50)) evs →
    let st2 := run exotic st1 evs in
    (∀ rinfo, emit_message P rinfo st2 = st2) ∧
    (∀ Q rinfo ws',
       Q ≠ P →
       sentMessages st !! stringify_data Q = None →
       Forall (quiet exotic Q) evs →
       (connected st2 ws' →
        delivered_to ws' (new_frames st2 (emit_message Q rinfo st2))
        = [udp_message Q rinfo]) ∧
       (¬ connected st2 ws' →
        delivered_to ws' (new_frames st2 (emit_message Q rinfo st2)) = [])).
Proof.
  intros st Hready Ht Hb st1.
  assert (request exotic "udp-send-no-echo" (Some msg) = Some P) as Hreq.
  { eapply request_intro; [done| |done]. by eapply Get_total. }
  assert (well_formed st1) as Hwf.
  { apply (step_well_formed exotic st (Message ws now (Some msg) SendOk)).
    apply run_well_formed, initial_well_formed. }
  assert (sentMessages st1 = <[stringify_data P := now]> (sentMessages st))
    as Hsent.
  { unfold st1. by rewrite message_sentMessages, Hready, Hreq. }
  refine (conj Hsent (conj _ _)).
  - unfold st1. rewrite message_egress, Hready, Hreq.
    by rewrite (request_other_type exotic "udp-send" "udp-send-no-echo" msg).
  - intros evs Hevs st2. split.
    + intros rinfo.
      destruct (run_keeps_entry exotic st1 evs (stringify_data P) now)
        as (t' & Hk' & _).
      * exists now. by rewrite Hsent, lookup_insert_eq.
      * eapply Forall_impl; [exact Hevs|].
        intros [] ?; simpl in *; unfold NO_ECHO_TIMEOUT; try done; lia.
      * apply emit_message_suppressed. subst st2. by rewrite Hk'.
    + intros Q rinfo ws' Hne HQ Hquiet.
      assert (sentMessages st2 !! stringify_data Q = None) as Hout.
      { apply run_absent; [|done]. rewrite Hsent, lookup_insert_ne; [done|].
        intros Heq%stringify_data_inj. congruence. }
      assert (well_formed st2) as Hwf2 by by apply run_well_formed.
      split; [by apply fan_out_connected|by apply fan_out_not_connected].
Qed.

(** C4.  Handling a send without echo is: set the key of the payload in
    [sentMessages], then call [udpSocket.send] on the state that already
    holds the entry.  Before the call nothing has been sent, and whatever
    the socket does, a datagram with that payload arriving right after the
    handler reaches no client. *)
Theorem C4_registered_before_send st ws now msg P net :
  udpReady st = Fulfilled →
  request exotic "udp-send-no-echo" (Some msg) = Some P →
  let registered := sentMessages_set (stringify_data P) now st in
  let st1 := message exotic ws now (Some msg) net st in
  st1 =
    try_catch
      (udpSocket_send P (prop msg "port") (prop msg "address") net)
      recover registered ∧
  sentMessages registered !! stringify_data P = Some now ∧
  egress registered = egress st ∧
  ∀ rinfo, emit_message P rinfo st1 = st1.
Proof.
  intros Hready Hreq registered st1.
  assert (sentMessages st1 !! stringify_data P = Some now) as Hk.
  { unfold st1. rewrite message_sentMessages, Hready, Hreq.
    apply lookup_insert_eq. }
  split_and!.
  - by apply message_udp_send_no_echo.
  - apply lookup_insert_eq.
  - done.
  - intros rinfo. apply emit_message_suppressed. by rewrite Hk.
Qed.

(** C5.  The key of a payload is its byte sequence and nothing else:
    two payloads have the same key exactly when they are the same bytes;
    two requests that register the same bytes, whatever their address and
    port, leave the same table; and two datagrams with the same payload,
    whatever their source, reach the same channels, none at all when the
    payload is in the table. *)
Theorem C5_key_is_the_payload st P Q r1 r2 :
  (stringify_data P = stringify_data Q ↔ P = Q) ∧
  (∀ ws1 ws2 now msg1 msg2 net1 net2,
     request exotic "udp-send-no-echo" (Some msg1) = Some P →
     request exotic "udp-send-no-echo" (Some msg2) = Some P →
     sentMessages (message exotic ws1 now (Some msg1) net1 st)
     = sentMessages (message exotic ws2 now (Some msg2) net2 st)) ∧
  fst <$> new_frames st (emit_message P r1 st)
  = fst <$> new_frames st (emit_message P r2 st) ∧
  (is_Some (sentMessages st !! stringify_data P) →
   new_frames st (emit_message P r1 st) = [] ∧
   new_frames st (emit_message P r2 st) = []).
Proof.
  split_and!.
  - split; [apply stringify_data_inj|by intros ->].
  - intros ws1 ws2 now msg1 msg2 net1 net2 H1 H2.
    by rewrite !message_sentMessages, H1, H2.
  - destruct (sentMessages st !! stringify_data P) eqn:Hk.
    + by rewrite !suppressed_no_frames by by rewrite Hk.
    + rewrite !emit_message_forward, !new_frames_push by done.
      by rewrite <-!list_fmap_compose.
  - intros Hk. by rewrite !suppressed_no_frames.
Qed.


(** C7.  A plain send leaves [sentMessages] as it was, so every inbound
    datagram is treated after it exactly as it would have been before; and
    a datagram with the payload that was sent, when no send without echo
    has it in the table, reaches every connected client once, as the frame
    that carries its source and bytes. *)
Theorem C7_plain_send_does_not_suppress evs ws now msg P net :
  let st := run exotic initial evs in
  udpReady st = Fulfilled →
  request exotic "udp-send" (Some msg) = Some P →
  let st1 := message exotic ws now (Some msg) net st in
  sentMessages st1 = sentMessages st ∧
  (∀ Q rinfo,
     new_frames st1 (emit_message Q rinfo st1)
     = new_frames st (emit_message Q rinfo st)) ∧
  (sentMessages st !! stringify_data P = None →
   ∀ rinfo ws',
     (connected st1 ws' →
      delivered_to ws' (new_frames st1 (emit_message P rinfo st1))
      = [udp_message P rinfo]) ∧
     (¬ connected st1 ws' →
      delivered_to ws' (new_frames st1 (emit_message P rinfo st1)) = [])).
Proof.
  intros st Hready Hreq st1.
  destruct (request_Some exotic _ _ _ Hreq)
    as (t & data & Ht & ->%strict_equals_true & Hd & Hb).
  assert (request exotic "udp-send-no-echo" (Some msg) = None) as Hno.
  { unfold request. by rewrite Ht, Hd. }
  assert (sentMessages st1 = sentMessages st) as Hsent.
  { unfold st1. by rewrite message_sentMessages, Hready, Hno. }
  destruct (message_channels exotic ws now (Some msg) net st)
    as (_ & Hl & Hrs & _). fold st1 in Hl, Hrs.
  assert (well_formed st1) as Hwf.
  { apply (step_well_formed exotic st (Message ws now (Some msg) net)).
    apply run_well_formed, initial_well_formed. }
  split_and!; [done| |].
  - intros Q rinfo. destruct (sentMessages st !! stringify_data Q) eqn:Hk.
    + by rewrite !suppressed_no_frames by by rewrite ?Hsent, Hk.
    + rewrite !emit_message_forward, !new_frames_push
        by by rewrite ?Hsent, Hk.
      unfold open_listeners. by rewrite Hl, Hrs.
  - intros Hk rinfo ws'. rewrite <-Hsent in Hk.
    split; [by apply fan_out_connected|by apply fan_out_not_connected].
Qed.


(** C9.  When the socket fails a send without echo, by raising or through
    its callback, the entry set before the call stays: no datagram has
    left, and as long as the clock readings stay within 100 ms of the
    registration an inbound datagram with that payload reaches no
    client. *)
Theorem C9_failed_send_keeps_the_entry st ws now msg P net :
  udpReady st = Fulfilled →
  request exotic "udp-send-no-echo" (Some msg) = Some P →
  net ≠ SendOk →
  let st1 := message exotic ws now (Some msg) net st in
  sentMessages st1 = <[stringify_data P := now]> (sentMessages st) ∧
  egress st1 = egress st ∧
  ∀ evs rinfo,
    Forall (clock_within now (now + NO_ECHO_TIMEOUT)) evs →
    let st2 := run exotic st1 evs in
    emit_message P rinfo st2 = st2.
Proof.
  intros Hready Hreq Hnet st1.
  assert (sentMessages st1 = <[stringify_data P := now]> (sentMessages st))
    as Hsent.
  { unfold st1. by rewrite message_sentMessages, Hready, Hreq. }
  split_and!; [done| |].
  - unfold st1. rewrite message_egress, Hready.
    destruct net; try done; by rewrite app_nil_r.
  - intros evs rinfo Hevs st2.
    destruct (run_keeps_entry exotic st1 evs (stringify_data P) now)
      as (t' & Hk' & _); [|done|].
    + exists now. by rewrite Hsent, lookup_insert_eq.
    + apply emit_message_suppressed. subst st2. by rewrite Hk'.
Qed.

(** C10.  For a [udp-send] or [udp-send-no-echo] message whose [data] is
    an array of integers, [Buffer.from] keeps each entry modulo 256, and
    when the socket accepts the send the datagram that leaves carries
    exactly these bytes: an entry outside 0..255 is not rejected. *)
Theorem C10_data_modulo_256 st ws now msg type zs :
  udpReady st = Fulfilled →
  type = "udp-send" ∨ type = "udp-send-no-echo" →
  Get msg "type" = inr (Some (JStr type)) →
  Get msg "data" = inr (Some (JArr (of_Z <$> zs))) →
  Buffer_from exotic (Some (JArr (of_Z <$> zs))) = inr (uint8 <$> zs) ∧
  Forall2 (λ z b, Byte.to_N b = Z.to_N (z `mod` 256)) zs (uint8 <$> zs) ∧
  egress (message exotic ws now (Some msg) SendOk st) =
    egress st ++ [{| payload := uint8 <$> zs; dest_port := prop msg "port";
                     dest_address := prop msg "address" |}].
Proof.
  intros Hready Htype Ht Hd. split_and!.
  - apply Buffer_from_integers.
  - apply Forall2_fmap_r, Forall_Forall2_diag, Forall_true, uint8_to_N.
  - assert (request exotic type (Some msg) = Some (uint8 <$> zs)) as Hreq.
    { eapply request_intro; [done..|]. apply Buffer_from_integers. }
    rewrite message_egress, Hready.
    destruct Htype as [-> | ->].
    + by rewrite Hreq.
    + rewrite Hreq.
      by rewrite (request_other_type exotic "udp-send" "udp-send-no-echo" msg).
Qed.

End Claims.

Lemma C1_echo_window_witness :
  udpReady one_client = Fulfilled ∧
  request no_exotic "udp-send-no-echo"
    (Some (client_message "type" "udp-send-no-echo" [1; 2; 3]%Z))
  = Some (bytes [1; 2; 3]%Z) ∧
  (let st2 :=
     run no_exotic
       (message no_exotic 0 0
          (Some (client_message "type" "udp-send-no-echo" [1; 2; 3]%Z))
          SendOk one_client)
       [Sweep 50; Sweep 100] in
   emit_message (bytes [1; 2; 3]%Z) loopback st2 = st2) ∧
  (let st2 :=
     run no_exotic
       (message no_exotic 0 0
          (Some (client_message "type" "udp-send-no-echo" [1; 2; 3]%Z))
          SendOk one_client)
       ([Sweep 50] ++ Sweep 101 :: []) in
   delivered_to 0 (new_frames st2 (emit_message (bytes [1; 2; 3]%Z) loopback st2))
   = [udp_message (bytes [1; 2; 3]%Z) loopback]).
Proof.
  destruct (C1_echo_window no_exotic [Listening; Open] 0 0
              (Some (client_message "type" "udp-send-no-echo" [1; 2; 3]%Z))
              SendOk (bytes [1; 2; 3]%Z) eq_refl eq_refl) as [Hin Hout].
  split_and!; [reflexivity|reflexivity| |].
  - apply Hin. repeat constructor; simpl; unfold NO_ECHO_TIMEOUT; lia.
  - apply (Hout [Sweep 50] 101%Z [] loopback).
    + repeat constructor.
    + unfold NO_ECHO_TIMEOUT. lia.
    + constructor.
    + split; [|reflexivity]. vm_compute. left.
Defined.

(** C1 as the specification words it fails at the boundary: the payload
    is registered at time 0, the sweep runs at time 100, and a datagram
    with that payload then arrives at a connected client's relay; the entry
    is exactly 100 ms old, [100 > 100] is false, the sweep keeps it, and
    nothing is delivered. *)
Lemma C1_sweep_at_100_ms_keeps_the_entry :
  connected
    (run no_exotic one_client
       [Message 0 0 (Some (client_message "type" "udp-send-no-echo" [1; 2; 3]%Z))
          SendOk;
        Sweep 100]) 0 ∧
  delivered_to 0
    (new_frames
       (run no_exotic one_client
          [Message 0 0
             (Some (client_message "type" "udp-send-no-echo" [1; 2; 3]%Z))
             SendOk;
           Sweep 100])
       (run no_exotic one_client
          [Message 0 0
             (Some (client_message "type" "udp-send-no-echo" [1; 2; 3]%Z))
             SendOk;
           Sweep 100;
           Datagram (bytes [1; 2; 3]%Z) loopback]))
  = [].
Proof.
  split; [split; [vm_compute; left|reflexivity]|reflexivity].
Qed.

(** The two malformed messages of the specification: text that is not
    JSON, and [{"kind":"unknown"}]. *)
Lemma C2_malformed_messages_witness :
  udpReady one_client = Fulfilled ∧
  egress (message no_exotic 0 0 None SendOk one_client) = egress one_client ∧
  egress (message no_exotic 0 0 (Some (JObj [("kind", JStr "unknown")]))
            SendOk one_client)
  = egress one_client.
Proof.
  destruct (C2_malformed_messages no_exotic one_client 0 0 None SendOk eq_refl)
    as (_ & Hjson & _).
  destruct (C2_malformed_messages no_exotic one_client 0 0
              (Some (JObj [("kind", JStr "unknown")])) SendOk eq_refl)
    as (_ & _ & Hkind & _).
  split_and!; [reflexivity|by apply Hjson|].
  by apply (Hkind (JObj [("kind", JStr "unknown")]) None).
Defined.

(** C2 as the specification words it fails: the bridge does not validate
    [data].  A plain send whose [data] is [[256, -1, 7]], to a valid
    address and port, is not rejected: a datagram with the bytes
    [0, 255, 7] leaves and nothing is logged. *)
Lemma C2_out_of_range_data_is_sent :
  egress
    (message no_exotic 0 0 (Some (client_message "type" "udp-send" [256; -1; 7]%Z))
       SendOk one_client)
  = [{| payload := [Byte.x00; Byte.xff; Byte.x07];
        dest_port := Some (of_Z 6454);
        dest_address := Some (JStr "127.0.0.1") |}] ∧
  egress one_client = [] ∧
  console
    (message no_exotic 0 0 (Some (client_message "type" "udp-send" [256; -1; 7]%Z))
       SendOk one_client)
  = console one_client.
Proof. split_and!; reflexivity. Qed.

Lemma C3_type_udp_send_no_echo_witness :
  udpReady one_client = Fulfilled ∧
  Get (client_message "type" "udp-send-no-echo" [1; 2; 3]%Z) "type"
  = inr (Some (JStr "udp-send-no-echo")) ∧
  Buffer_from no_exotic
    (prop (client_message "type" "udp-send-no-echo" [1; 2; 3]%Z) "data")
  = inr (bytes [1; 2; 3]%Z) ∧
  (let st2 :=
     run no_exotic
       (message no_exotic 0 0
          (Some (client_message "type" "udp-send-no-echo" [1; 2; 3]%Z))
          SendOk one_client)
       [Sweep 50] in
   emit_message (bytes [1; 2; 3]%Z) loopback st2 = st2 ∧
   delivered_to 0
     (new_frames st2 (emit_message (bytes [9; 9; 9]%Z) loopback st2))
   = [udp_message (bytes [9; 9; 9]%Z) loopback]).
Proof.
  destruct (C3_type_udp_send_no_echo no_exotic [Listening; Open] 0 0
              (client_message "type" "udp-send-no-echo" [1; 2; 3]%Z)
              (bytes [1; 2; 3]%Z) eq_refl eq_refl eq_refl)
    as (_ & _ & Hevs).
  destruct (Hevs [Sweep 50]) as [Hecho Hother].
  { repeat constructor; simpl; lia. }
  split_and!; [reflexivity|reflexivity|reflexivity|].
  split; [apply Hecho|].
  destruct (Hother (bytes [9; 9; 9]%Z) loopback 0) as [Hdeliver _].
  - discriminate.
  - reflexivity.
  - repeat constructor.
  - apply Hdeliver. split; [|reflexivity]. vm_compute. left.
Defined.

(** C3 as the specification words it fails: the bridge does not read a
    [kind] property.  The message of the specification's scenario,
    [{"kind":"udp-send-no-echo","address":"127.0.0.1","port":6454,
    "data":[1,2,3]}], has no [type]; it is ignored, nothing is sent or
    registered, and the datagram with payload [1,2,3] that arrives next is
    forwarded to the client. *)
Lemma C3_kind_is_not_the_discriminator :
  message no_exotic 0 0
    (Some (client_message "kind" "udp-send-no-echo" [1; 2; 3]%Z))
    SendOk one_client
  = one_client ∧
  frames
    (run no_exotic one_client
       [Message 0 0
          (Some (client_message "kind" "udp-send-no-echo" [1; 2; 3]%Z)) SendOk;
        Datagram (bytes [1; 2; 3]%Z) loopback])
  = [(0, udp_message (bytes [1; 2; 3]%Z) loopback)].
Proof. split; reflexivity. Qed.

Lemma C4_registered_before_send_witness :
  udpReady one_client = Fulfilled ∧
  request no_exotic "udp-send-no-echo"
    (Some (client_message "type" "udp-send-no-echo" [1; 2; 3]%Z))
  = Some (bytes [1; 2; 3]%Z) ∧
  (let st1 :=
     message no_exotic 0 0
       (Some (client_message "type" "udp-send-no-echo" [1; 2; 3]%Z))
       SendOk one_client in
   st1 =
     try_catch
       (udpSocket_send (bytes [1; 2; 3]%Z) (Some (of_Z 6454))
          (Some (JStr "127.0.0.1")) SendOk)
       recover
       (sentMessages_set (stringify_data (bytes [1; 2; 3]%Z)) 0 one_client) ∧
   emit_message (bytes [1; 2; 3]%Z) loopback st1 = st1).
Proof.
  destruct (C4_registered_before_send no_exotic one_client 0 0
              (client_message "type" "udp-send-no-echo" [1; 2; 3]%Z)
              (bytes [1; 2; 3]%Z) SendOk eq_refl eq_refl)
    as (Hsplit & _ & _ & Hecho).
  split_and!; [reflexivity|reflexivity|].
  split; [exact Hsplit|apply Hecho].
Defined.

Lemma C5_key_is_the_payload_witness :
  is_Some
    (sentMessages
       (message no_exotic 0 0
          (Some (client_message "type" "udp-send-no-echo" [1; 2; 3]%Z))
          SendOk two_clients)
     !! stringify_data (bytes [1; 2; 3]%Z)) ∧
  new_frames
    (message no_exotic 0 0
       (Some (client_message "type" "udp-send-no-echo" [1; 2; 3]%Z))
       SendOk two_clients)
    (emit_message (bytes [1; 2; 3]%Z) loopback
       (message no_exotic 0 0
          (Some (client_message "type" "udp-send-no-echo" [1; 2; 3]%Z))
          SendOk two_clients))
  = [] ∧
  new_frames
    (message no_exotic 0 0
       (Some (client_message "type" "udp-send-no-echo" [1; 2; 3]%Z))
       SendOk two_clients)
    (emit_message (bytes [1; 2; 3]%Z)
       {| address := "192.168.1.50"; port := 40000 |}
       (message no_exotic 0 0
          (Some (client_message "type" "udp-send-no-echo" [1; 2; 3]%Z))
          SendOk two_clients))
  = [].
Proof.
  assert (is_Some
    (sentMessages
       (message no_exotic 0 0
          (Some (client_message "type" "udp-send-no-echo" [1; 2; 3]%Z))
          SendOk two_clients)
     !! stringify_data (bytes [1; 2; 3]%Z))) as Hk.
  { exists 0%Z. reflexivity. }
  destruct (C5_key_is_the_payload no_exotic
              (message no_exotic 0 0
                 (Some (client_message "type" "udp-send-no-echo" [1; 2; 3]%Z))
                 SendOk two_clients)
              (bytes [1; 2; 3]%Z) (bytes [1; 2; 3]%Z) loopback
              {| address := "192.168.1.50"; port := 40000 |})
    as (_ & _ & _ & Hboth).
  split; [exact Hk|exact (Hboth Hk)].
Defined.


Lemma C7_plain_send_does_not_suppress_witness :
  udpReady two_clients = Fulfilled ∧
  request no_exotic "udp-send"
    (Some (client_message "type" "udp-send" [65; 66; 67]%Z))
  = Some (bytes [65; 66; 67]%Z) ∧
  sentMessages two_clients !! stringify_data (bytes [65; 66; 67]%Z) = None ∧
  (let st1 :=
     message no_exotic 0 0
       (Some (client_message "type" "udp-send" [65; 66; 67]%Z))
       SendOk two_clients in
   sentMessages st1 = sentMessages two_clients ∧
   delivered_to 1
     (new_frames st1 (emit_message (bytes [65; 66; 67]%Z) loopback st1))
   = [udp_message (bytes [65; 66; 67]%Z) loopback]).
Proof.
  destruct (C7_plain_send_does_not_suppress no_exotic [Listening; Open; Open]
              0 0 (client_message "type" "udp-send" [65; 66; 67]%Z)
              (bytes [65; 66; 67]%Z) SendOk eq_refl eq_refl)
    as (Hsame & _ & Hdeliver).
  split_and!; [reflexivity|reflexivity|reflexivity|].
  split; [exact Hsame|].
  destruct (Hdeliver eq_refl loopback 1) as [Hin _].
  apply Hin. split; [|reflexivity]. vm_compute. right. left.
Defined.

Lemma C9_failed_send_keeps_the_entry_witness :
  udpReady one_client = Fulfilled ∧
  request no_exotic "udp-send-no-echo"
    (Some (client_message "type" "udp-send-no-echo" [1; 2; 3]%Z))
  = Some (bytes [1; 2; 3]%Z) ∧
  SendFails ≠ SendOk ∧
  (let st1 :=
     message no_exotic 0 0
       (Some (client_message "type" "udp-send-no-echo" [1; 2; 3]%Z))
       SendFails one_client in
   egress st1 = egress one_client ∧
   emit_message (bytes [1; 2; 3]%Z) loopback (run no_exotic st1 [Sweep 100])
   = run no_exotic st1 [Sweep 100]).
Proof.
  assert (SendFails ≠ SendOk) as Hnet by discriminate.
  destruct (C9_failed_send_keeps_the_entry no_exotic one_client 0 0
              (client_message "type" "udp-send-no-echo" [1; 2; 3]%Z)
              (bytes [1; 2; 3]%Z) SendFails eq_refl eq_refl Hnet)
    as (_ & Hegress & Hecho).
  split_and!; [reflexivity|reflexivity|exact Hnet|].
  split; [exact Hegress|].
  apply Hecho. repeat constructor; simpl; unfold NO_ECHO_TIMEOUT; lia.
Defined.

Lemma C10_data_modulo_256_witness :
  udpReady one_client = Fulfilled ∧
  Get (client_message "type" "udp-send" [256; -1; 7]%Z) "type"
  = inr (Some (JStr "udp-send")) ∧
  Get (client_message "type" "udp-send" [256; -1; 7]%Z) "data"
  = inr (Some (JArr (of_Z <$> [256; -1; 7]%Z))) ∧
  egress
    (message no_exotic 0 0
       (Some (client_message "type" "udp-send" [256; -1; 7]%Z))
       SendOk one_client)
  = egress one_client ++
    [{| payload := uint8 <$> [256; -1; 7]%Z;
        dest_port := prop (client_message "type" "udp-send" [256; -1; 7]%Z) "port";
        dest_address :=
          prop (client_message "type" "udp-send" [256; -1; 7]%Z) "address" |}].
Proof.
  destruct (C10_data_modulo_256 no_exotic one_client 0 0
              (client_message "type" "udp-send" [256; -1; 7]%Z)
              "udp-send" [256; -1; 7]%Z eq_refl (or_introl eq_refl)
              eq_refl eq_refl)
    as (_ & _ & Hegress).
  split_and!; [reflexivity|reflexivity|reflexivity|exact Hegress].
Defined.

(** C7 as the specification words it fails: a plain send does not take a
    payload out of the table.  Browser 0 sends the bytes of [ABC] without
    echo at 0, browser 1 sends the same bytes with a plain [udp-send] at
    10; both datagrams leave, and the datagram with these bytes that
    arrives next reaches neither of the two connected browsers. *)
Lemma C7_plain_send_of_a_registered_payload :
  request no_exotic "udp-send"
    (Some (client_message "type" "udp-send" [65; 66; 67]%Z))
  = Some (bytes [65; 66; 67]%Z) ∧
  udpReady
    (run no_exotic two_clients
       [Message 0 0
          (Some (client_message "type" "udp-send-no-echo" [65; 66; 67]%Z))
          SendOk])
  = Fulfilled ∧
  connected
    (run no_exotic two_clients
       [Message 0 0
          (Some (client_message "type" "udp-send-no-echo" [65; 66; 67]%Z))
          SendOk;
        Message 1 10
          (Some (client_message "type" "udp-send" [65; 66; 67]%Z)) SendOk])
    0 ∧
  connected
    (run no_exotic two_clients
       [Message 0 0
          (Some (client_message "type" "udp-send-no-echo" [65; 66; 67]%Z))
          SendOk;
        Message 1 10
          (Some (client_message "type" "udp-send" [65; 66; 67]%Z)) SendOk])
    1 ∧
  payload
    <$> egress
          (run no_exotic two_clients
             [Message 0 0
                (Some (client_message "type" "udp-send-no-echo"
                         [65; 66; 67]%Z))
                SendOk;
              Message 1 10
                (Some (client_message "type" "udp-send" [65; 66; 67]%Z))
                SendOk])
  = [bytes [65; 66; 67]%Z; bytes [65; 66; 67]%Z] ∧
  frames
    (run no_exotic two_clients
       [Message 0 0
          (Some (client_message "type" "udp-send-no-echo" [65; 66; 67]%Z))
          SendOk;
        Message 1 10
          (Some (client_message "type" "udp-send" [65; 66; 67]%Z)) SendOk;
        Datagram (bytes [65; 66; 67]%Z) loopback])
  = [].
Proof.
  split_and!; try reflexivity.
  - split; [|reflexivity]. vm_compute. left.
  - split; [|reflexivity]. vm_compute. right. left.
Qed.


(** * Further properties of the relay *)

(** ** The sweep, as an operation on the table *)

(** X1.  The sweep loop, which deletes from the map while it walks over
    it, keeps exactly the entries that are at most [NO_ECHO_TIMEOUT] old
    at [now], each with its timestamp: nothing is skipped, nothing else is
    lost, nothing is added. *)
Theorem sweep_entries_filter (now : Z) (m : gmap string Z) :
  sweep_entries now m
  = filter (λ kv, ¬ (now - kv.2 > NO_ECHO_TIMEOUT)%Z) m.
Proof.
  apply map_eq. intros key.
  rewrite sweep_entries_lookup, map_lookup_filter.
  destruct (m !! key) as [timestamp|]; simpl; [|done].
  case_decide.
  - by rewrite option_guard_False by tauto.
  - by rewrite option_guard_True.
Qed.

(** X2.  Two sweeps in a row do what one sweep at the later of the two
    times does; in particular a sweep repeated at the same time changes
    nothing more. *)
Theorem sweep_entries_twice (now1 now2 : Z) (m : gmap string Z) :
  sweep_entries now2 (sweep_entries now1 m)
  = sweep_entries (now1 `max` now2) m.
Proof.
  apply map_eq. intros key. rewrite !sweep_entries_lookup.
  destruct (m !! key) as [timestamp|]; [|done].
  repeat case_decide; try done; lia.
Qed.

(** ** Where the relay's outputs come from *)

Section Provenance.

Variable exotic : json → error + list byte.

Lemma run_snoc st evs e :
  run exotic st (evs ++ [e]) = step exotic (run exotic st evs) e.
Proof. by rewrite run_app. Qed.

(** The frames an event writes. *)
Lemma step_frames st e :
  frames (step exotic st e) =
    frames st ++
    match e with
    | Datagram msg rinfo =>
        if has (sentMessages st) (stringify_data msg) then []
        else (λ ws, (ws, udp_message msg rinfo)) <$> open_listeners st
    | _ => []
    end.
Proof.
  destruct e as [| | now|msg rinfo| |ws now parsed net|ws|ws rs]; simpl;
    rewrite ?app_nil_r; try done.
  - unfold listening. by destruct (udpReady st).
  - unfold socket_error. by destruct (udpReady st).
  - destruct (has (sentMessages st) (stringify_data msg)) eqn:Hhas.
    + apply has_true in Hhas.
      by rewrite emit_message_suppressed, app_nil_r.
    + apply has_false in Hhas. by rewrite emit_message_forward.
  - by destruct (message_channels exotic ws now parsed net st)
      as (_ & _ & _ & -> & _).
  - by case_decide.
Qed.

(** The datagrams an event sends. *)
Lemma step_egress st e :
  egress (step exotic st e) =
    egress st ++
    match e with
    | Message ws now parsed net =>
        match udpReady st, parsed, net with
        | Fulfilled, Some msg, SendOk =>
            match request exotic "udp-send" parsed,
                  request exotic "udp-send-no-echo" parsed with
            | Some P, _ | None, Some P =>
                [{| payload := P; dest_port := prop msg "port";
                    dest_address := prop msg "address" |}]
            | None, None => []
            end
        | _, _, _ => []
        end
    | _ => []
    end.
Proof.
  destruct e as [| | now|msg rinfo| |ws now parsed net|ws|ws rs]; simpl;
    rewrite ?app_nil_r; try done.
  - unfold listening. by destruct (udpReady st).
  - unfold socket_error. by destruct (udpReady st).
  - by destruct (emit_message_pushes msg rinfo st) as [fs ->].
  - apply message_egress.
  - by case_decide.
Qed.

(** X3.  Every entry of [sentMessages], in any state the relay can reach,
    was put there by a send without echo: its key is the key of the buffer
    that message made and its timestamp is the clock reading of that
    message.  Nothing else writes the table. *)
Theorem sentMessages_provenance evs :
  map_Forall
    (λ key timestamp,
       ∃ ws parsed net P,
         Message ws timestamp parsed net ∈ evs ∧
         request exotic "udp-send-no-echo" parsed = Some P ∧
         key = stringify_data P)
    (sentMessages (run exotic initial evs)).
Proof.
  induction evs as [|e evs IH] using rev_ind; [apply map_Forall_empty|].
  rewrite run_snoc. intros key timestamp. rewrite step_sentMessages.
  assert (∀ key timestamp,
    sentMessages (run exotic initial evs) !! key = Some timestamp →
    ∃ ws parsed net P,
      Message ws timestamp parsed net ∈ evs ++ [e] ∧
      request exotic "udp-send-no-echo" parsed = Some P ∧
      key = stringify_data P) as Hold.
  { intros k t Hk. destruct (IH k t Hk) as (ws & parsed & net & P & Hin & ?).
    exists ws, parsed, net, P. split; [|done]. apply elem_of_app. by left. }
  destruct e as [| | now|msg rinfo| |ws now parsed net|ws|ws rs]; auto.
  - rewrite sweep_entries_lookup.
    destruct (sentMessages (run exotic initial evs) !! key) eqn:Hk; [|done].
    case_decide; [done|]. intros [= <-]. by apply Hold.
  - destruct (udpReady (run exotic initial evs)); auto.
    destruct (request exotic "udp-send-no-echo" parsed) as [P|] eqn:Hreq; auto.
    destruct (decide (stringify_data P = key)) as [<-|Hne].
    + rewrite lookup_insert_eq. intros [= <-].
      exists ws, parsed, net, P. split_and!; [|done..].
      apply elem_of_app. right. by apply list_elem_of_singleton.
    + rewrite lookup_insert_ne by done. apply Hold.
Qed.

(** X4.  Every frame the relay has written, in any state it can reach,
    is the [udp-message] frame of a datagram that arrived, written to a
    channel that had been opened: the relay makes up no frame. *)
Theorem frames_provenance evs :
  Forall
    (λ f, f.1 < next_ws (run exotic initial evs) ∧
          ∃ msg rinfo, Datagram msg rinfo ∈ evs ∧
                       f.2 = udp_message msg rinfo)
    (frames (run exotic initial evs)).
Proof.
  induction evs as [|e evs IH] using rev_ind; [constructor|].
  rewrite run_snoc, step_frames. apply Forall_app. split.
  - eapply Forall_impl; [exact IH|]. intros [ws text] [Hlt Hex]. split.
    + pose proof (step_next_ws exotic (run exotic initial evs) e).
      simpl in *. lia.
    + destruct Hex as (msg & rinfo & Hin & ?). exists msg, rinfo.
      split; [|done]. apply elem_of_app. by left.
  - destruct e as [| | now|msg rinfo| |ws now parsed net|ws|ws rs];
      try constructor.
    destruct (has _ _); [constructor|].
    apply Forall_fmap, Forall_forall. intros ws Hws. simpl.
    apply elem_of_open_listeners in Hws as [Hin _]. split.
    + destruct (run_well_formed exotic initial evs initial_well_formed)
        as [_ Hlt].
      pose proof (step_next_ws exotic (run exotic initial evs)
                    (Datagram msg rinfo)).
      apply Hlt in Hin. simpl in *. lia.
    + exists msg, rinfo. split; [|done].
      apply elem_of_app. right. by apply list_elem_of_singleton.
Qed.

(** X5.  Every datagram the relay has sent, in any state it can reach,
    answers a client message of type [udp-send] or [udp-send-no-echo] that
    the socket accepted: it carries the buffer made from that message's
    [data], and that message's [port] and [address].  Nothing else makes
    the relay send; in particular an inbound datagram never does. *)
Theorem egress_provenance evs :
  Forall
    (λ d, ∃ ws now msg,
       Message ws now (Some msg) SendOk ∈ evs ∧
       (request exotic "udp-send" (Some msg) = Some (payload d) ∨
        request exotic "udp-send-no-echo" (Some msg) = Some (payload d)) ∧
       dest_port d = prop msg "port" ∧
       dest_address d = prop msg "address")
    (egress (run exotic initial evs)).
Proof.
  induction evs as [|e evs IH] using rev_ind; [constructor|].
  rewrite run_snoc, step_egress. apply Forall_app. split.
  - eapply Forall_impl; [exact IH|].
    intros d (ws & now & msg & Hin & ?). exists ws, now, msg.
    split; [|done]. apply elem_of_app. by left.
  - destruct e as [| | now|msg rinfo| |ws now parsed net|ws|ws rs];
      try constructor.
    destruct (udpReady _); try constructor.
    destruct parsed as [msg|]; [|constructor].
    destruct net; try constructor.
    assert (Message ws now (Some msg) SendOk
              ∈ evs ++ [Message ws now (Some msg) SendOk]) as Hin.
    { apply elem_of_app. right. by apply list_elem_of_singleton. }
    destruct (request exotic "udp-send" (Some msg)) as [P|] eqn:H1.
    + repeat constructor. exists ws, now, msg. simpl. auto.
    + destruct (request exotic "udp-send-no-echo" (Some msg)) as [P|] eqn:H2;
        repeat constructor.
      exists ws, now, msg. simpl. auto.
Qed.

End Provenance.

(** ** Datagrams in a row *)

Section Datagrams.

Variable exotic : json → error + list byte.

(** X6.  An inbound datagram only ever writes frames: it leaves the
    table, the subscriptions, the channels, the egress and the log as they
    were.  The check against [sentMessages] does not consume the entry, so
    an echo that is in the table can arrive any number of times and is
    withheld every time. *)
Theorem datagram_only_writes_frames st msg rinfo :
  let st' := emit_message msg rinfo st in
  udpReady st' = udpReady st ∧
  sentMessages st' = sentMessages st ∧
  listeners st' = listeners st ∧
  readyState st' = readyState st ∧
  egress st' = egress st ∧
  console st' = console st ∧
  next_ws st' = next_ws st ∧
  (is_Some (sentMessages st !! stringify_data msg) →
   ∀ n, Nat.iter n (emit_message msg rinfo) st = st).
Proof.
  simpl. destruct (emit_message_pushes msg rinfo st) as [fs Hfs].
  rewrite Hfs. split_and!; try done.
  intros Hk n. induction n as [|n IH]; [done|].
  simpl. rewrite IH. by apply emit_message_suppressed.
Qed.

Lemma run_datagrams st (ds : list (list byte * RemoteInfo)) :
  run exotic st ((λ d, Datagram d.1 d.2) <$> ds) =
    push_frames
      (ds ≫= λ d,
         if has (sentMessages st) (stringify_data d.1) then []
         else (λ ws, (ws, udp_message d.1 d.2)) <$> open_listeners st)
      st.
Proof.
  cut (∀ fs,
    run exotic (push_frames fs st) ((λ d, Datagram d.1 d.2) <$> ds) =
    push_frames
      (fs ++ (ds ≫= λ d,
         if has (sentMessages st) (stringify_data d.1) then []
         else (λ ws, (ws, udp_message d.1 d.2)) <$> open_listeners st))
      st).
  { intros Hcut. specialize (Hcut []). by rewrite push_frames_nil in Hcut. }
  induction ds as [|[msg rinfo] ds IH]; intros fs.
  - simpl. by rewrite app_nil_r.
  - rewrite fmap_cons, run_cons, bind_cons. simpl.
    destruct (has (sentMessages st) (stringify_data msg)) eqn:Hhas.
    + apply has_true in Hhas.
      rewrite emit_message_suppressed by done. apply IH.
    + apply has_false in Hhas.
      rewrite emit_message_forward by done.
      rewrite push_frames_app, IH. by rewrite <-app_assoc.
Qed.

Lemma delivered_to_app ws fs1 fs2 :
  delivered_to ws (fs1 ++ fs2) = delivered_to ws fs1 ++ delivered_to ws fs2.
Proof. unfold delivered_to. by rewrite filter_app, fmap_app. Qed.

(** X7.  Datagrams that arrive one after the other reach a connected
    channel in the order of their arrival: the channel gets, in that order
    and once each, the frames of those whose payload is not in the table,
    and a channel that is not connected gets none. *)
Theorem datagrams_arrive_in_order evs0 (ds : list (list byte * RemoteInfo)) ws :
  let st := run exotic initial evs0 in
  let st' := run exotic st ((λ d, Datagram d.1 d.2) <$> ds) in
  (connected st ws →
   delivered_to ws (new_frames st st') =
     (λ d, udp_message d.1 d.2) <$>
       filter (λ d, sentMessages st !! stringify_data d.1 = None) ds) ∧
  (¬ connected st ws → delivered_to ws (new_frames st st') = []).
Proof.
  intros st st'. unfold st'. rewrite run_datagrams, new_frames_push.
  assert (NoDup (open_listeners st)) as Hnd.
  { apply NoDup_filter.
    by destruct (run_well_formed exotic initial evs0 initial_well_formed). }
  split; intros Hc; rewrite <-elem_of_open_listeners in Hc.
  - induction ds as [|[msg rinfo] ds IH]; [done|].
    rewrite bind_cons, delivered_to_app, IH, filter_cons. simpl.
    destruct (has (sentMessages st) (stringify_data msg)) eqn:Hhas.
    + apply has_true in Hhas. rewrite decide_False; [done|].
      intros Hnone. rewrite Hnone in Hhas. by destruct Hhas.
    + apply has_false in Hhas. rewrite decide_True by done.
      rewrite delivered_to_fanout by done. by rewrite decide_True.
  - induction ds as [|[msg rinfo] ds IH]; [done|].
    rewrite bind_cons, delivered_to_app, IH, app_nil_r. simpl.
    destruct (has (sentMessages st) (stringify_data msg)); [done|].
    rewrite delivered_to_fanout by done. by rewrite decide_False.
Qed.

End Datagrams.

(** ** Subscriptions *)

Lemma filter_all_differ (ws : nat) (l : list nat) :
  ws ∉ l → filter (λ x, x ≠ ws) l = l.
Proof.
  induction l as [|x l IH]; [done|]. intros Hout.
  rewrite filter_cons, decide_True.
  - rewrite IH; [done|]. intros Hin. apply Hout. by right.
  - intros ->. apply Hout. left.
Qed.

Lemma remove_first_filter (ws : nat) (l : list nat) :
  NoDup l → remove_first ws l = filter (λ x, x ≠ ws) l.
Proof.
  induction 1 as [|x l Hx Hl IH]; [done|]. simpl. rewrite filter_cons.
  destruct (decide (x = ws)) as [->|Hne].
  - rewrite decide_False by auto. by rewrite filter_all_differ.
  - rewrite decide_True by done. by rewrite IH.
Qed.

Lemma off_filter (ws : nat) (l : list nat) :
  NoDup l → off ws l = filter (λ x, x ≠ ws) l.
Proof.
  intros Hl. unfold off.
  rewrite remove_first_filter by by apply NoDup_reverse.
  by rewrite filter_reverse, reverse_involutive.
Qed.

Section Subscriptions.

Variable exotic : json → error + list byte.

(** X8.  In any state the relay can reach, closing a channel removes that
    channel's handler and leaves the others subscribed, in their order;
    closing it a second time changes no subscription; and closing a channel
    that has just been opened leaves the subscriptions as they were before
    it opened. *)
Theorem close_removes_one_subscription evs ws :
  let st := run exotic initial evs in
  listeners (close ws st) = filter (λ x, x ≠ ws) (listeners st) ∧
  listeners (close ws (close ws st)) = listeners (close ws st) ∧
  listeners (close (next_ws st) (open st)) = listeners st.
Proof.
  intros st.
  destruct (run_well_formed exotic initial evs initial_well_formed)
    as [Hnd Hlt]. fold st in Hnd, Hlt.
  assert (listeners (close ws st) = filter (λ x, x ≠ ws) (listeners st))
    as Hclose by by apply off_filter.
  split_and!; [done| |].
  - simpl. simpl in Hclose. rewrite Hclose.
    rewrite off_filter by by apply NoDup_filter.
    rewrite list_filter_filter. apply list_filter_iff. tauto.
  - simpl. unfold on.
    assert (NoDup (listeners st ++ [next_ws st])) as Hnd'.
    { apply NoDup_app. split_and!; [done| |apply NoDup_singleton].
      intros x Hx ->%list_elem_of_singleton. apply Hlt in Hx. lia. }
    rewrite off_filter by done.
    rewrite filter_app, filter_all_differ.
    + rewrite filter_cons, decide_False by auto. apply app_nil_r.
    + intros Hin. apply Hlt in Hin. lia.
Qed.

Lemma step_channels st e :
  (∀ ws, ws < next_ws st ↔ is_Some (readyState st !! ws)) →
  ∀ ws, ws < next_ws (step exotic st e)
        ↔ is_Some (readyState (step exotic st e) !! ws).
Proof.
  intros Hst.
  destruct e as [| | now|msg rinfo| |ws' now parsed net|ws'|ws' rs]; simpl.
  - unfold listening. by destruct (udpReady st).
  - unfold socket_error. by destruct (udpReady st).
  - done.
  - by destruct (emit_message_pushes msg rinfo st) as [fs ->].
  - intros ws. destruct (decide (ws = next_ws st)) as [->|Hne].
    + rewrite lookup_insert_eq. split; [by eexists|lia].
    + rewrite lookup_insert_ne by done. rewrite <-Hst. lia.
  - by destruct (message_channels exotic ws' now parsed net st)
      as (_ & _ & -> & _ & ->).
  - done.
  - case_decide as Hsome; [|done]. simpl. intros ws.
    destruct (decide (ws = ws')) as [->|Hne].
    + rewrite lookup_insert_eq. split; [by eexists|]. intros _.
      by apply Hst.
    + by rewrite lookup_insert_ne.
Qed.

(** X9.  In any state the relay can reach, no channel has more than one
    handler subscribed, only channels that have been opened are
    subscribed, and the channels that have a [readyState] are exactly the
    ones that have been opened. *)
Theorem reachable_subscriptions evs :
  let st := run exotic initial evs in
  NoDup (listeners st) ∧
  (∀ ws, ws ∈ listeners st → ws < next_ws st) ∧
  (∀ ws, ws < next_ws st ↔ is_Some (readyState st !! ws)).
Proof.
  intros st.
  destruct (run_well_formed exotic initial evs initial_well_formed)
    as [Hnd Hlt].
  split_and!; [done..|]. unfold st. clear.
  induction evs as [|e evs IH] using rev_ind.
  - intros ws. simpl. rewrite lookup_empty. split; [lia|by intros []].
  - rewrite run_app. simpl. by apply step_channels.
Qed.

(** X10.  Registering a payload that is already in the table refreshes
    its timestamp and adds no second entry: after two sends without echo
    of the same bytes the table is what the second alone would have left,
    and a sweep keeps the entry as long as it is no more than
    [NO_ECHO_TIMEOUT] after the second registration, however old the
    first. *)
Theorem registering_again_refreshes st ws1 ws2 t1 t2 msg1 msg2 net1 net2 P :
  udpReady st = Fulfilled →
  request exotic "udp-send-no-echo" (Some msg1) = Some P →
  request exotic "udp-send-no-echo" (Some msg2) = Some P →
  let st2 :=
    message exotic ws2 t2 (Some msg2) net2
      (message exotic ws1 t1 (Some msg1) net1 st) in
  sentMessages st2 = <[stringify_data P := t2]> (sentMessages st) ∧
  sentMessages st2
  = sentMessages (message exotic ws2 t2 (Some msg2) net2 st) ∧
  ∀ now, (now - t2 ≤ NO_ECHO_TIMEOUT)%Z →
         sentMessages (sweep now st2) !! stringify_data P = Some t2.
Proof.
  intros Hready H1 H2 st2.
  assert (sentMessages st2 = <[stringify_data P := t2]> (sentMessages st))
    as Hsent.
  { unfold st2. rewrite !message_sentMessages, H1, H2.
    destruct (message_channels exotic ws1 t1 (Some msg1) net1 st) as (-> & _).
    rewrite Hready. apply insert_insert_eq. }
  split_and!; [done| |].
  - by rewrite Hsent, message_sentMessages, Hready, H2.
  - intros now Hnow. simpl. rewrite sweep_entries_lookup, Hsent.
    rewrite lookup_insert_eq. rewrite decide_False; [done|lia].
Qed.

End Subscriptions.

(** ** What [data] may be *)

Section Data.

Variable exotic : json → error + list byte.

Lemma uint8_congruent (z1 z2 : Z) :
  uint8 z1 = uint8 z2 ↔ (z1 `mod` 256 = z2 `mod` 256)%Z.
Proof.
  split.
  - intros Heq. apply (f_equal Byte.to_N) in Heq.
    rewrite !uint8_to_N in Heq.
    pose proof (Z.mod_pos_bound z1 256). pose proof (Z.mod_pos_bound z2 256).
    lia.
  - intros Heq. unfold uint8. by rewrite Heq.
Qed.

(** X11.  Two arrays of integers make the same buffer exactly when they
    have the same length and their entries agree modulo 256: the
    conversion loses the multiples of 256 and nothing else. *)
Theorem Buffer_from_integers_congruent (zs1 zs2 : list Z) :
  Buffer_from exotic (Some (JArr (of_Z <$> zs1)))
  = Buffer_from exotic (Some (JArr (of_Z <$> zs2)))
  ↔ Forall2 (λ z1 z2, (z1 `mod` 256 = z2 `mod` 256)%Z) zs1 zs2.
Proof.
  rewrite !Buffer_from_integers. split.
  - intros [= Heq]. revert zs2 Heq.
    induction zs1 as [|z1 zs1 IH]; intros [|z2 zs2] Heq; try done.
    injection Heq as Hz Heq. constructor; [by apply uint8_congruent|auto].
  - intros Hall. f_equal. induction Hall as [|z1 z2 zs1 zs2 Hz _ IH]; [done|].
    rewrite !fmap_cons, IH. f_equal. by apply uint8_congruent.
Qed.

(** X12.  A send whose [data] is a string sends the bytes of the string.
    A send whose [data] is missing, [null], a boolean or a number makes
    [Buffer.from] throw a TypeError: the error is logged as an invalid
    message, nothing is sent and nothing is registered. *)
Theorem message_data_shapes st ws now msg type net :
  udpReady st = Fulfilled →
  type = "udp-send" ∨ type = "udp-send-no-echo" →
  Get msg "type" = inr (Some (JStr type)) →
  let st' := message exotic ws now (Some msg) net st in
  (∀ s, prop msg "data" = Some (JStr s) → net = SendOk →
        egress st' =
          egress st ++ [{| payload := bytes_of_string s;
                           dest_port := prop msg "port";
                           dest_address := prop msg "address" |}]) ∧
  (match prop msg "data" with
   | None | Some JNull | Some (JBool _) | Some (JNum _) => True
   | _ => False
   end →
   st' = log (LogInvalidMessage TypeError) st).
Proof.
  intros Hready Htype Ht st'. split.
  - intros s Hdata ->.
    assert (request exotic type (Some msg) = Some (bytes_of_string s)) as Hreq.
    { eapply request_intro; [done|by eapply Get_total|]. by rewrite Hdata. }
    unfold st'. rewrite message_egress, Hready.
    destruct Htype as [-> | ->]; rewrite Hreq; [done|].
    by rewrite (request_other_type exotic "udp-send" "udp-send-no-echo" msg).
  - intros Hdata. unfold st'. rewrite message_unfold, Hready, Ht.
    assert (Buffer_from exotic (prop msg "data") = inl TypeError) as ->.
    { by destruct (prop msg "data") as [[]|]. }
    by destruct Htype as [-> | ->].
Qed.

End Data.

Lemma registering_again_refreshes_witness :
  udpReady one_client = Fulfilled ∧
  request no_exotic "udp-send-no-echo"
    (Some (client_message "type" "udp-send-no-echo" [1; 2; 3]%Z))
  = Some (bytes [1; 2; 3]%Z) ∧
  sentMessages
    (sweep 150
       (message no_exotic 0 60
          (Some (client_message "type" "udp-send-no-echo" [1; 2; 3]%Z)) SendOk
          (message no_exotic 0 0
             (Some (client_message "type" "udp-send-no-echo" [1; 2; 3]%Z))
             SendOk one_client)))
    !! stringify_data (bytes [1; 2; 3]%Z)
  = Some 60%Z.
Proof.
  destruct (registering_again_refreshes no_exotic one_client 0 0 0 60
              (client_message "type" "udp-send-no-echo" [1; 2; 3]%Z)
              (client_message "type" "udp-send-no-echo" [1; 2; 3]%Z)
              SendOk SendOk (bytes [1; 2; 3]%Z) eq_refl eq_refl eq_refl)
    as (_ & _ & Hsweep).
  split_and!; [reflexivity|reflexivity|].
  apply Hsweep. unfold NO_ECHO_TIMEOUT. lia.
Defined.

Lemma message_data_shapes_witness :
  udpReady one_client = Fulfilled ∧
  Get (JObj [("type", JStr "udp-send"); ("address", JStr "127.0.0.1");
             ("port", of_Z 6454)]) "type"
  = inr (Some (JStr "udp-send")) ∧
  message no_exotic 0 0
    (Some (JObj [("type", JStr "udp-send"); ("address", JStr "127.0.0.1");
                 ("port", of_Z 6454)]))
    SendOk one_client
  = log (LogInvalidMessage TypeError) one_client.
Proof.
  destruct (message_data_shapes no_exotic one_client 0 0
              (JObj [("type", JStr "udp-send"); ("address", JStr "127.0.0.1");
                     ("port", of_Z 6454)])
              "udp-send" SendOk eq_refl (or_introl eq_refl) eq_refl)
    as [_ Hmissing].
  split_and!; [reflexivity|reflexivity|].
  by apply Hmissing.
Defined.

(** * mDNS *)

Lemma getLocalIPs_inner (ips : list string)
    (addrs : list MDNS.NetworkInterfaceInfo) :
  foldl
    (λ ips addr,
       if bool_decide (MDNS.family addr = "IPv4") && negb (MDNS.internal addr)
       then ips ++ [MDNS.address addr] else ips)
    ips addrs
  = ips ++ (MDNS.address <$>
              filter (λ addr, MDNS.family addr = "IPv4"
                              ∧ MDNS.internal addr = false) addrs).
Proof.
  revert ips. induction addrs as [|addr addrs IH]; intros ips; simpl.
  - by rewrite app_nil_r.
  - rewrite IH, filter_cons.
    destruct (decide (MDNS.family addr = "IPv4")) as [Hf|Hf];
      [rewrite (bool_decide_true _ Hf)|rewrite (bool_decide_false _ Hf)];
      destruct (MDNS.internal addr) eqn:Hint; simpl.
    + rewrite decide_False; [done|]. by intros [_ ?].
    + rewrite decide_True by done. by rewrite <-app_assoc.
    + rewrite decide_False; [done|]. by intros [? _].
    + rewrite decide_False; [done|]. by intros [? _].
Qed.

(** X13.  [getLocalIPs] lists, in the order the system reports them, the
    addresses that are IPv4 and not internal, and only those: no loopback
    address and no IPv6 address is ever listed, and an interface without
    an entry is passed over. *)
Theorem getLocalIPs_lists_external_IPv4
    (interfaces : list (option (list MDNS.NetworkInterfaceInfo))) :
  MDNS.getLocalIPs interfaces
  = MDNS.address <$>
      filter (λ addr, MDNS.family addr = "IPv4" ∧ MDNS.internal addr = false)
        (interfaces ≫= default []).
Proof.
  unfold MDNS.getLocalIPs.
  cut (∀ ips,
    foldl
      (λ ips iface,
         match iface with
         | None => ips
         | Some addrs =>
             foldl
               (λ ips addr,
                  if bool_decide (MDNS.family addr = "IPv4")
                     && negb (MDNS.internal addr)
                  then ips ++ [MDNS.address addr] else ips)
               ips addrs
         end)
      ips interfaces
    = ips ++ (MDNS.address <$>
                filter (λ addr, MDNS.family addr = "IPv4"
                                ∧ MDNS.internal addr = false)
                  (interfaces ≫= default []))).
  { intros Hcut. by rewrite Hcut. }
  induction interfaces as [|iface interfaces IH]; intros ips.
  - simpl. by rewrite app_nil_r.
  - rewrite bind_cons, filter_app, fmap_app, app_assoc.
    cbn [foldl]. rewrite IH. f_equal.
    destruct iface as [addrs|]; cbn [default].
    + by rewrite getLocalIPs_inner.
    + by rewrite filter_nil, app_nil_r.
Qed.

Lemma query_inner (answers : list MDNS.Answer.t) (registered : bool)
    (ips : list string) :
  foldl (λ '(answers, _) ip, (answers ++ [MDNS.answer_for ip], true))
    (answers, registered) ips
  = (answers ++ (MDNS.answer_for <$> ips),
     match ips with [] => registered | _ => true end).
Proof.
  revert answers registered.
  induction ips as [|ip ips IH]; intros answers registered; simpl.
  - by rewrite app_nil_r.
  - rewrite IH, <-app_assoc. by destruct ips.
Qed.

Lemma query_outer interfaces (answers : list MDNS.Answer.t)
    (registered : bool) (questions : list MDNS.Question.t) :
  foldl
    (λ '(answers, registered) question,
       if bool_decide (MDNS.Question.name question = MDNS.hostname)
          && bool_decide (MDNS.Question.type question = "A")
       then
         foldl (λ '(answers, _) ip, (answers ++ [MDNS.answer_for ip], true))
           (answers, registered) (MDNS.getLocalIPs interfaces)
       else (answers, registered))
    (answers, registered) questions
  = let new :=
      filter (λ q, MDNS.Question.name q = MDNS.hostname
                   ∧ MDNS.Question.type q = "A") questions
      ≫= λ _, MDNS.answer_for <$> MDNS.getLocalIPs interfaces in
    (answers ++ new, match new with [] => registered | _ => true end).
Proof.
  revert answers registered.
  induction questions as [|q questions IH]; intros answers registered.
  - simpl. by rewrite app_nil_r.
  - rewrite filter_cons. cbn [foldl].
    destruct (decide (MDNS.Question.name q = MDNS.hostname)) as [Hn|Hn];
      [rewrite (bool_decide_true _ Hn)|rewrite (bool_decide_false _ Hn)];
      (destruct (decide (MDNS.Question.type q = "A")) as [Ht|Ht];
        [rewrite (bool_decide_true _ Ht)|rewrite (bool_decide_false _ Ht)]);
      cbn [andb].
    + rewrite decide_True by done. rewrite query_inner, IH, bind_cons.
      cbv zeta. rewrite <-app_assoc. f_equal.
      destruct (MDNS.getLocalIPs interfaces) as [|ip ips]; [done|].
      rewrite fmap_cons. cbn [app]. by destruct (_ ≫= _).
    + rewrite decide_False by (by intros [_ ?]). by rewrite IH.
    + rewrite decide_False by (by intros [? _]). by rewrite IH.
    + rewrite decide_False by (by intros [? _]). by rewrite IH.
Qed.

(** X14.  The [query] listener answers the questions that ask for the
    [A] record of [udp-ws-bridge.local], each with one answer per local
    address ([name] the hostname, [type] A, [ttl] 120), in order; a
    question repeated in the query is answered again.  It responds exactly
    when that makes at least one answer, and then with all of them at
    once: a query with no such question, or on a host without an external
    IPv4 address, gets no response. *)
Theorem query_answers interfaces questions mdnsRegistered :
  let answers :=
    filter (λ q, MDNS.Question.name q = MDNS.hostname
                 ∧ MDNS.Question.type q = "A") questions
    ≫= λ _, MDNS.answer_for <$> MDNS.getLocalIPs interfaces in
  (MDNS.query interfaces questions mdnsRegistered).2
  = match answers with [] => None | _ => Some answers end ∧
  length answers
  = length (filter (λ q, MDNS.Question.name q = MDNS.hostname
                         ∧ MDNS.Question.type q = "A") questions)
    * length (MDNS.getLocalIPs interfaces).
Proof.
  intros answers. split.
  - unfold MDNS.query. rewrite query_outer. fold answers. simpl.
    by destruct answers.
  - unfold answers.
    induction (filter _ questions) as [|q qs IH]; [done|].
    rewrite bind_cons, length_app, length_fmap, IH. simpl. lia.
Qed.

(** X15.  [mdnsRegistered] is set by the first query that is responded
    to and is never cleared: after a query it is true exactly when it was
    true before or the query got a response. *)
Theorem query_mdnsRegistered interfaces questions mdnsRegistered :
  (MDNS.query interfaces questions mdnsRegistered).1
  = mdnsRegistered
    || bool_decide
         (is_Some (MDNS.query interfaces questions mdnsRegistered).2).
Proof.
  unfold MDNS.query. rewrite query_outer. cbv zeta. rewrite app_nil_l.
  destruct (_ ≫= _) as [|a answers]; cbn [fst snd length].
  - rewrite (bool_decide_false (0 < 0)) by lia.
    rewrite (bool_decide_false (is_Some _)); [by rewrite orb_false_r|].
    by intros [? ?].
  - rewrite (bool_decide_true (0 < S _)) by lia.
    rewrite (bool_decide_true (is_Some _)); [by rewrite orb_true_r|].
    by eexists.
Qed.

(** * The client library *)

Lemma client_run_snoc (c : Client.WSClient) evs e :
  Client.run c (evs ++ [e]) = Client.step (Client.run c evs) e.
Proof. unfold Client.run. by rewrite foldl_app. Qed.

(** What an event does to the reconnection state. *)
Lemma client_step_reconnect (c : Client.WSClient) (e : Client.event) :
  (Client.reconnectAttempts (Client.step c e) ≤ Client.reconnectAttempts c
   ∧ Client.timers (Client.step c e) = Client.timers c)
  ∨ (Client.reconnectAttempts c < Client.maxReconnectAttempts
     ∧ Client.reconnectAttempts (Client.step c e)
       = S (Client.reconnectAttempts c)
     ∧ Client.timers (Client.step c e)
       = Client.timers c
         ++ [(1000 * 2 ^ Z.of_nat (Client.reconnectAttempts c))%Z]).
Proof.
  destruct e; simpl;
    try (left; split; [simpl; lia|done]).
  - left. unfold Client.onmessage. repeat case_match; simpl; split; done.
  - unfold Client.onclose, Client.attemptReconnect. simpl.
    destruct (decide _) as [Hmax|Hmax]; simpl.
    + left. split; done.
    + right. unfold Client.maxReconnectAttempts in *.
      split; [lia|]. split; [done|].
      unfold Client.reconnectDelay. do 4 f_equal. lia.
  - left. unfold Client.sendUDP, Client.send_request.
    repeat case_match; simpl; split; done.
  - left. unfold Client.sendUDPNoEcho, Client.send_request.
    repeat case_match; simpl; split; done.
  - left. unfold Client.disconnect, Client.ws_close.
    repeat case_match; simpl; split; done.
Qed.

(** X16.  Exponential backoff.  When WebSockets of a client close one
    after the other without one opening in between, the [n]-th close
    schedules a reconnection after [1000 * 2^(k+n-1)] ms, [k] being the
    attempts counted so far, until the counter stands at 5; every later
    close schedules nothing.  From a fresh client: 1000, 2000, 4000, 8000,
    16000 ms and then no more. *)
Theorem reconnect_backoff (c : Client.WSClient) (ids : list nat) :
  let k := Client.reconnectAttempts c in
  let m := length ids `min` (Client.maxReconnectAttempts - k) in
  let c' := Client.run c (Client.OnClose <$> ids) in
  Client.timers c'
  = Client.timers c ++ ((λ i, (1000 * 2 ^ Z.of_nat i)%Z) <$> seq k m) ∧
  Client.reconnectAttempts c' = k + m.
Proof.
  unfold Client.maxReconnectAttempts. cbv zeta.
  induction ids as [|id ids IH] using rev_ind.
  - simpl. by rewrite app_nil_r, Nat.add_0_r.
  - rewrite fmap_app.
    change (Client.OnClose <$> [id]) with [Client.OnClose id].
    rewrite client_run_snoc, length_app. simpl length.
    destruct IH as [IHt IHa].
    set (c1 := Client.run c (Client.OnClose <$> ids)) in *.
    change (Client.step c1 (Client.OnClose id))
      with (Client.attemptReconnect (Client.set_readyState id CLOSED c1)).
    unfold Client.attemptReconnect, Client.maxReconnectAttempts.
    change (Client.reconnectAttempts (Client.set_readyState id CLOSED c1))
      with (Client.reconnectAttempts c1).
    destruct (decide (5 ≤ Client.reconnectAttempts c1)) as [Hmax|Hmax].
    + change (Client.timers (Client.set_readyState id CLOSED c1))
        with (Client.timers c1).
      replace ((length ids + 1) `min` (5 - Client.reconnectAttempts c))
        with (length ids `min` (5 - Client.reconnectAttempts c)) by lia.
      done.
    + simpl. rewrite IHt, IHa.
      replace ((length ids + 1) `min` (5 - Client.reconnectAttempts c))
        with (S (length ids `min` (5 - Client.reconnectAttempts c))) by lia.
      rewrite seq_S, fmap_app, <-app_assoc. simpl. split; [|lia].
      do 3 f_equal. unfold Client.reconnectDelay. f_equal. f_equal. lia.
Qed.

(** X17.  Whatever happens to a client, its attempt counter never
    exceeds 5 and every reconnection it has scheduled waits one of 1000,
    2000, 4000, 8000 or 16000 ms. *)
Theorem reconnects_are_bounded (evs : list Client.event) :
  let c := Client.run Client.new evs in
  Client.reconnectAttempts c ≤ Client.maxReconnectAttempts ∧
  Forall (λ delay, ∃ i, i < 5 ∧ delay = (1000 * 2 ^ Z.of_nat i)%Z)
    (Client.timers c).
Proof.
  cbv zeta. unfold Client.maxReconnectAttempts.
  induction evs as [|e evs [IHa IHt]] using rev_ind.
  - simpl. split; [lia|constructor].
  - rewrite client_run_snoc.
    destruct (client_step_reconnect (Client.run Client.new evs) e)
      as [[Ha Ht]|(Hlt & Ha & Ht)]; unfold Client.maxReconnectAttempts in *.
    + rewrite Ht. split; [lia|done].
    + rewrite Ha, Ht. split; [lia|].
      apply Forall_app. split; [done|].
      constructor; [|constructor]. by eexists.
Qed.

(** X18.  [disconnect] is not final.  A connected client that
    disconnects is no longer connected, but the listeners of the
    WebSocket it closed stay in place: when that WebSocket's close event
    arrives, a reconnection is scheduled like after any other close, and
    once its timer has fired and the new WebSocket has opened the client
    is connected again, with its attempt counter back at 0. *)
Theorem disconnect_reconnects (c : Client.WSClient) (id : nat) :
  Client.ws c = Some id →
  Client.sockets c !! id = Some OPEN →
  Client.reconnectAttempts c < Client.maxReconnectAttempts →
  let c1 := Client.run c [Client.Disconnect] in
  let c2 := Client.run c1 [Client.OnClose id] in
  let c3 :=
    Client.run c2 [Client.TimerFires; Client.OnOpen (Client.next_socket c)] in
  (Client.isConnected c = true ∧ Client.isConnected c1 = false
   ∧ Client.ws c1 = None) ∧
  Client.timers c2
  = Client.timers c ++ [(1000 * 2 ^ Z.of_nat (Client.reconnectAttempts c))%Z] ∧
  Client.isConnected c3 = true ∧ Client.ws c3 = Some (Client.next_socket c) ∧
  Client.reconnectAttempts c3 = 0.
Proof.
  intros Hws Hopen Hlt. cbv zeta.
  unfold Client.run; cbn [foldl Client.step].
  assert (Client.disconnect c = Client.set_ws None
            (Client.set_readyState id CLOSING c)) as ->.
  { unfold Client.disconnect, Client.ws_close. by rewrite Hws, Hopen. }
  split; [|split; [|split; [|split]]].
  - unfold Client.isConnected. rewrite Hws. simpl.
    by rewrite bool_decide_true.
  - unfold Client.onclose, Client.attemptReconnect. simpl.
    rewrite decide_False by lia. simpl.
    unfold Client.reconnectDelay. do 4 f_equal. lia.
  - unfold Client.onclose, Client.attemptReconnect. simpl.
    rewrite decide_False by lia. unfold Client.isConnected. simpl.
    apply bool_decide_true. by rewrite lookup_insert_eq.
  - unfold Client.onclose, Client.attemptReconnect. simpl.
    by destruct (decide _).
  - done.
Qed.

(** What an event writes to a WebSocket. *)
Lemma client_step_sent (c : Client.WSClient) (e : Client.event) :
  Client.sent (Client.step c e) = Client.sent c
  ∨ ∃ id type options,
      (type = "udp-send" ∨ type = "udp-send-no-echo") ∧
      Client.ws c = Some id ∧ Client.sockets c !! id = Some OPEN ∧
      Client.sent (Client.step c e)
      = Client.sent c ++ [(id, Client.request_message type options)].
Proof.
  destruct e; simpl; try (by left).
  - left. unfold Client.onmessage. by repeat case_match.
  - left. unfold Client.onclose, Client.attemptReconnect.
    by destruct (decide _).
  - unfold Client.sendUDP, Client.send_request.
    destruct (Client.ws c) as [id|] eqn:Hws; [|by left].
    destruct (decide (Client.sockets c !! id = Some OPEN)) as [Ho|Ho];
      [rewrite (bool_decide_true _ Ho)|rewrite (bool_decide_false _ Ho)];
      [|by left].
    right. exists id, "udp-send", options. eauto.
  - unfold Client.sendUDPNoEcho, Client.send_request.
    destruct (Client.ws c) as [id|] eqn:Hws; [|by left].
    destruct (decide (Client.sockets c !! id = Some OPEN)) as [Ho|Ho];
      [rewrite (bool_decide_true _ Ho)|rewrite (bool_decide_false _ Ho)];
      [|by left].
    right. exists id, "udp-send-no-echo", options. eauto.
  - left. unfold Client.disconnect, Client.ws_close. by repeat case_match.
Qed.

(** The current WebSocket is one the client has created. *)
Lemma client_step_ws (c : Client.WSClient) (e : Client.event) :
  (∀ id, Client.ws c = Some id → id < Client.next_socket c) →
  Client.next_socket c ≤ Client.next_socket (Client.step c e) ∧
  ∀ id, Client.ws (Client.step c e) = Some id →
        id < Client.next_socket (Client.step c e).
Proof.
  intros Hc.
  assert (∀ c', Client.ws c' = Client.ws c ∨ Client.ws c' = None →
                Client.next_socket c' = Client.next_socket c →
                Client.next_socket c ≤ Client.next_socket c' ∧
                ∀ id, Client.ws c' = Some id → id < Client.next_socket c')
    as Hsame.
  { intros c' Hws ->. split; [lia|]. intros id Hid. apply Hc.
    destruct Hws as [<-|Hws]; congruence. }
  destruct e; simpl; try (apply Hsame; [by left|done]).
  - split; [lia|]. intros id [= <-]. lia.
  - unfold Client.onmessage.
    repeat case_match; (apply Hsame; [by left|done]).
  - unfold Client.onclose, Client.attemptReconnect.
    destruct (decide _); (apply Hsame; [by left|done]).
  - split; [lia|]. intros id [= <-]. lia.
  - unfold Client.sendUDP, Client.send_request.
    destruct (Client.ws c) eqn:Hws; [destruct (bool_decide _)|];
      simpl; apply Hsame; simpl; auto.
  - unfold Client.sendUDPNoEcho, Client.send_request.
    destruct (Client.ws c) eqn:Hws; [destruct (bool_decide _)|];
      simpl; apply Hsame; simpl; auto.
  - unfold Client.disconnect, Client.ws_close.
    destruct (Client.ws c) as [id|] eqn:Hws; [|apply Hsame; auto].
    destruct (Client.sockets c !! id) as [[]|];
      apply Hsame; simpl; auto.
Qed.

Lemma address_or_default_nonempty (o : option string) :
  Client.address_or_default o ≠ "".
Proof.
  unfold Client.address_or_default.
  destruct o as [s|]; [|done]. by destruct (decide (s = "")).
Qed.

Lemma port_or_default_truthy (o : option number) :
  Client.truthy (Client.port_or_default o) = true.
Proof.
  unfold Client.port_or_default.
  destruct o as [n|]; [|done]. by destruct (Client.truthy n) eqn:Hn.
Qed.

(** X19.  Every message a client has ever written to a WebSocket is a
    request of type [udp-send] or [udp-send-no-echo] with the four
    properties [type], [address], [port] and [data]; its address is never
    the empty string and its port never 0 or NaN (the defaults
    [127.0.0.1] and 6454 stand in for these); and it was written to a
    WebSocket this client had created. *)
Theorem requests_are_complete (evs : list Client.event) :
  let c := Client.run Client.new evs in
  Forall
    (λ '(id, msg),
       id < Client.next_socket c ∧
       ∃ type address port data,
         (type = "udp-send" ∨ type = "udp-send-no-echo") ∧
         msg = JObj [("type", JStr type); ("address", JStr address);
                     ("port", JNum port); ("data", JArr (JNum <$> data))] ∧
         address ≠ "" ∧ Client.truthy port = true)
    (Client.sent c).
Proof.
  cbv zeta.
  cut (let c := Client.run Client.new evs in
       (∀ id, Client.ws c = Some id → id < Client.next_socket c) ∧
       Forall
         (λ '(id, msg),
            id < Client.next_socket c ∧
            ∃ type address port data,
              (type = "udp-send" ∨ type = "udp-send-no-echo") ∧
              msg = JObj [("type", JStr type); ("address", JStr address);
                          ("port", JNum port);
                          ("data", JArr (JNum <$> data))] ∧
              address ≠ "" ∧ Client.truthy port = true)
         (Client.sent c)).
  { by intros [_ H]. }
  cbv zeta. induction evs as [|e evs [IHw IHs]] using rev_ind.
  - split; [done|constructor].
  - rewrite client_run_snoc.
    set (c := Client.run Client.new evs) in *.
    destruct (client_step_ws c e IHw) as [Hn Hw]. split; [done|].
    assert (Forall
      (λ '(id, msg),
         id < Client.next_socket (Client.step c e) ∧
         ∃ type address port data,
           (type = "udp-send" ∨ type = "udp-send-no-echo") ∧
           msg = JObj [("type", JStr type); ("address", JStr address);
                       ("port", JNum port); ("data", JArr (JNum <$> data))] ∧
           address ≠ "" ∧ Client.truthy port = true)
      (Client.sent c)) as IHs'.
    { eapply Forall_impl; [exact IHs|].
      intros [id msg] [Hid H]. split; [lia|done]. }
    destruct (client_step_sent c e)
      as [->|(id & type & options & Htype & Hws & _ & ->)]; [done|].
    apply Forall_app. split; [done|].
    constructor; [|constructor]. split.
    + apply IHw in Hws. lia.
    + eexists type, _, _, _. split; [done|]. split; [reflexivity|].
      split; [apply address_or_default_nonempty|apply port_or_default_truthy].
Qed.

(** What an event does to the handlers and to the calls made to them. *)
Lemma client_step_calls (c : Client.WSClient) (e : Client.event) :
  (Client.calls (Client.step c e) = Client.calls c
   ∨ ∃ msg, Get msg "type" = inr (Some (JStr "udp-message")) ∧
            Client.calls (Client.step c e)
            = Client.calls c
              ++ ((λ h, (h, msg)) <$> Client.messageHandlers c)) ∧
  ∀ h, h ∈ Client.messageHandlers (Client.step c e) →
       h ∈ Client.messageHandlers c ∨ e = Client.RegisterHandler h.
Proof.
  destruct e; simpl; try (split; [by left|by left]).
  - unfold Client.onmessage.
    destruct parsed as [msg|]; [|split; by left].
    destruct (Get msg "type") as [|type] eqn:Ht; [split; by left|].
    destruct (strict_equals type "udp-message") eqn:Hs; [|split; by left].
    split; [|by left]. right. exists msg. split; [|done].
    destruct type as [[]|]; simpl in Hs; try done.
    by apply bool_decide_eq_true in Hs as ->.
  - unfold Client.onclose, Client.attemptReconnect.
    destruct (decide _); split; by left.
  - unfold Client.sendUDP, Client.send_request.
    repeat case_match; split; by left.
  - unfold Client.sendUDPNoEcho, Client.send_request.
    repeat case_match; split; by left.
  - split; [by left|]. intros h' [?| ->%list_elem_of_singleton]%elem_of_app.
    + by left.
    + by right.
  - split; [by left|]. by intros h' ?%elem_of_nil.
  - unfold Client.disconnect, Client.ws_close.
    repeat case_match; split; by left.
Qed.

(** X20.  A handler is only ever called with a message whose [type] is
    [udp-message], and only if it has been registered with [onMessage]:
    text that is not JSON, [null], and messages of any other type reach no
    handler. *)
Theorem handlers_get_udp_messages_only (evs : list Client.event) :
  Forall
    (λ '(h, msg),
       Get msg "type" = inr (Some (JStr "udp-message")) ∧
       Client.RegisterHandler h ∈ evs)
    (Client.calls (Client.run Client.new evs)).
Proof.
  cut ((∀ h, h ∈ Client.messageHandlers (Client.run Client.new evs) →
             Client.RegisterHandler h ∈ evs) ∧
       Forall
         (λ '(h, msg),
            Get msg "type" = inr (Some (JStr "udp-message")) ∧
            Client.RegisterHandler h ∈ evs)
         (Client.calls (Client.run Client.new evs))).
  { by intros [_ H]. }
  induction evs as [|e evs [IHh IHc]] using rev_ind.
  - split; [by intros h ?%elem_of_nil|constructor].
  - rewrite client_run_snoc.
    set (c := Client.run Client.new evs) in *.
    destruct (client_step_calls c e) as [Hcalls Hh]. split.
    + intros h [Hin| ->]%Hh; apply elem_of_app; [left; by apply IHh|].
      right. by apply list_elem_of_singleton.
    + assert (Forall
        (λ '(h, msg),
           Get msg "type" = inr (Some (JStr "udp-message")) ∧
           Client.RegisterHandler h ∈ evs ++ [e])
        (Client.calls c)) as IHc'.
      { eapply Forall_impl; [exact IHc|].
        intros [h msg] [? ?]. split; [done|]. apply elem_of_app. by left. }
      destruct Hcalls as [->|(msg & Hmsg & ->)]; [done|].
      apply Forall_app. split; [done|].
      apply Forall_fmap, Forall_forall. intros h Hin. simpl.
      split; [done|]. apply elem_of_app. left. by apply IHh.
Qed.

(** * From the client to the socket *)

Lemma wire_JArr (elements : list json) :
  Client.wire (JArr elements) = JArr (Client.wire <$> elements).
Proof.
  reflexivity.
Qed.

Lemma wire_request_message (type : string) (options : Client.SendOptions) :
  Client.wire (Client.request_message type options)
  = JObj [("type", JStr type);
          ("address",
           JStr (Client.address_or_default (Client.address options)));
          ("port",
           Client.wire_number (Client.port_or_default (Client.port options)));
          ("data",
           JArr (Client.wire_number
                   <$> Client.data_array (Client.data options)))].
Proof.
  unfold Client.request_message.
  change (Client.wire (JObj ?l)) with
    (JObj [("type", JStr type);
           ("address",
            JStr (Client.address_or_default (Client.address options)));
           ("port",
            Client.wire_number (Client.port_or_default (Client.port options)));
           ("data",
            Client.wire
              (JArr (JNum <$> Client.data_array (Client.data options))))]).
  rewrite wire_JArr. do 5 f_equal.
  by rewrite <-list_fmap_compose.
Qed.

Lemma mapM_ToNumber_wire (ns : list number) :
  mapM ToNumber_primitive (Client.wire_number <$> ns)
  = Some ((λ n, match n with Finite q => Finite q | _ => Finite 0 end) <$> ns).
Proof.
  induction ns as [|n ns IH]; [done|].
  rewrite !fmap_cons. cbn [mapM]. rewrite IH. by destruct n.
Qed.

Lemma uint8_of_byte (b : byte) : uint8 (Z.of_N (Byte.to_N b)) = b.
Proof.
  unfold uint8. pose proof (Byte.to_N_bounded b).
  rewrite Z.mod_small by lia. rewrite N2Z.id.
  by rewrite Byte.of_to_N.
Qed.

Lemma Buffer_from_wire exotic (d : list number + list byte) :
  Buffer_from exotic (Some (JArr (Client.wire_number <$> Client.data_array d)))
  = inr (match d with inl numbers => ToUint8 <$> numbers | inr buf => buf end).
Proof.
  unfold Buffer_from. rewrite mapM_ToNumber_wire. f_equal.
  rewrite <-list_fmap_compose.
  destruct d as [numbers|buf]; cbn [Client.data_array].
  - apply list_fmap_ext. intros _ n _. by destruct n.
  - rewrite <-list_fmap_compose. rewrite <-(list_fmap_id buf) at 2.
    apply list_fmap_ext. intros _ b _.
    unfold compose, Client.number_of_byte. rewrite ToUint8_integer.
    apply uint8_of_byte.
Qed.

(** X21.  From the client's call to the datagram.  On a connected client
    [sendUDP] and [sendUDPNoEcho] write one request to the WebSocket, and
    when the listening bridge handles that request (as [JSON.stringify]
    and [JSON.parse] carry it) and the socket accepts the send, exactly
    one datagram leaves: its payload is the caller's data, each number
    taken as a byte (truncated, modulo 256; NaN and the infinities as 0)
    and a Buffer as it is, and its destination is the caller's address and
    port or the defaults [127.0.0.1] and 6454.  After [sendUDPNoEcho] that
    payload is registered in [sentMessages] at the time of handling; after
    [sendUDP] nothing is registered. *)
Theorem client_request_becomes_a_datagram exotic (noEcho : bool)
    (options : Client.SendOptions) (c : Client.WSClient)
    (st : bridge) (ws : nat) (now : Z) :
  Client.isConnected c = true →
  udpReady st = Fulfilled →
  let send := if noEcho then Client.sendUDPNoEcho else Client.sendUDP in
  ∃ id msg,
    Client.ws c = Some id ∧
    send options c = Some (Client.ws_send id msg c) ∧
    let st' := message exotic ws now (Some (Client.wire msg)) SendOk st in
    egress st'
    = egress st
      ++ [{| payload := Client.payload_of options;
             dest_port :=
               Some (Client.wire_number
                       (Client.port_or_default (Client.port options)));
             dest_address :=
               Some (JStr (Client.address_or_default
                             (Client.address options))) |}] ∧
    sentMessages st'
    = if noEcho
      then <[stringify_data (Client.payload_of options) := now]>
             (sentMessages st)
      else sentMessages st.
Proof.
  intros Hc Hready. cbv zeta.
  unfold Client.isConnected in Hc.
  destruct (Client.ws c) as [id|] eqn:Hws; [|done].
  set (type := if noEcho then "udp-send-no-echo" else "udp-send").
  exists id, (Client.request_message type options).
  split; [done|]. split.
  { unfold type. destruct noEcho;
      unfold Client.sendUDPNoEcho, Client.sendUDP, Client.send_request;
      by rewrite Hws, Hc. }
  rewrite wire_request_message.
  set (msg := JObj _).
  assert (request exotic type (Some msg) = Some (Client.payload_of options))
    as Hreq.
  { eapply request_intro; [reflexivity|reflexivity|].
    apply Buffer_from_wire. }
  rewrite message_egress, message_sentMessages, Hready.
  unfold type in Hreq. destruct noEcho.
  - rewrite Hreq.
    rewrite (request_other_type exotic "udp-send" "udp-send-no-echo" msg)
      by done.
    done.
  - rewrite Hreq.
    rewrite (request_other_type exotic "udp-send-no-echo" "udp-send" msg)
      by done.
    done.
Qed.

Lemma disconnect_reconnects_witness :
  let c := a_connected_client in
  let c3 :=
    Client.run c
      [Client.Disconnect; Client.OnClose 0; Client.TimerFires;
       Client.OnOpen 1] in
  Client.timers c3 = [1000%Z] ∧ Client.isConnected c3 = true.
Proof.
  pose proof (disconnect_reconnects a_connected_client 0) as H.
  destruct H as (_ & Ht & Hc & _).
  - reflexivity.
  - reflexivity.
  - vm_compute. lia.
  - split; [exact Ht|exact Hc].
Defined.

Lemma client_request_becomes_a_datagram_witness :
  let options :=
    {| Client.address := None; Client.port := Some (Finite 0);
       Client.data := inl [Finite (inject_Z 511); NaN] |} in
  ∃ id msg,
    Client.sendUDPNoEcho options a_connected_client
    = Some (Client.ws_send id msg a_connected_client) ∧
    egress (message no_exotic 0 7 (Some (Client.wire msg)) SendOk
              (run no_exotic initial [Listening]))
    = [{| payload := [Byte.xff; Byte.x00];
          dest_port := Some (JNum (Finite 6454));
          dest_address := Some (JStr "127.0.0.1") |}].
Proof.
  cbv zeta.
  destruct (client_request_becomes_a_datagram no_exotic true
              {| Client.address := None; Client.port := Some (Finite 0);
                 Client.data := inl [Finite (inject_Z 511); NaN] |}
              a_connected_client (run no_exotic initial [Listening]) 0 7)
    as (id & msg & _ & Hsend & Hegress & _).
  - reflexivity.
  - reflexivity.
  - exists id, msg. split; [exact Hsend|exact Hegress].
Defined.
